(** * Damped mass-spring oscillator: ODE model, input callbacks and main loop

    A shallow embedding of [src/main.cpp].  The C++ code computes on IEEE
    binary64 [double]s (the ODE state and parameters) and on the rendering
    library's single-precision [vec3]; both are kept behind one interface of
    arithmetic operations so that every function below is written once, runs
    on machine floats, and can also be read over the real numbers. *)

From Stdlib Require Import ZArith QArith Reals Lra Lia List String Ascii.
From Stdlib Require Import DecimalString.
From Stdlib Require Import Floats Uint63.
From stdpp Require Import base option list.

Local Open Scope Z_scope.

(* ================================================================== *)
(** * Arithmetic interface *)
(* ================================================================== *)

(** The operations the program applies to a floating-point type. [slit]
    reads a literal of the source, given as the fraction it denotes. *)
Class Scalar (T : Type) := {
  sadd : T -> T -> T;
  ssub : T -> T -> T;
  smul : T -> T -> T;
  sdiv : T -> T -> T;
  sopp : T -> T;
  ssqrt : T -> T;
  slit : Q -> T
}.

(** Implicit conversion [double] to [float], as in [vec3(0,0,y[0])]. *)
Class Narrow (D S : Type) := narrow : D -> S.

Declare Scope num_scope.
Delimit Scope num_scope with num.
Infix "+" := sadd : num_scope.
Infix "-" := ssub : num_scope.
Infix "*" := smul : num_scope.
Infix "/" := sdiv : num_scope.
Notation "- x" := (sopp x) : num_scope.

Module IEEE.

(** ** binary64: Rocq's primitive floats *)

Definition Z2double (z : Z) : float :=
  match z with
  | Z0 => PrimFloat.zero
  | Zpos _ => PrimFloat.of_uint63 (Uint63.of_Z z)
  | Zneg p => PrimFloat.opp (PrimFloat.of_uint63 (Uint63.of_Z (Zpos p)))
  end.

(** A literal is the correctly rounded quotient of its numerator and
    denominator; both are exact for the literals of this program. *)
Definition double_lit (q : Q) : float :=
  PrimFloat.div (Z2double (Qnum q)) (Z2double (Zpos (Qden q))).

#[global] Instance double_scalar : Scalar float := {|
  sadd := PrimFloat.add;
  ssub := PrimFloat.sub;
  smul := PrimFloat.mul;
  sdiv := PrimFloat.div;
  sopp := PrimFloat.opp;
  ssqrt := PrimFloat.sqrt;
  slit := double_lit
|}.

(** ** binary32: the specification floats at precision 24 *)

Definition prec32 : Z := 24.
Definition emax32 : Z := 128.

Definition single : Type := spec_float.

Definition single_lit (q : Q) : single :=
  SFdiv prec32 emax32
    (binary_normalize prec32 emax32 (Qnum q) 0 false)
    (binary_normalize prec32 emax32 (Zpos (Qden q)) 0 false).

#[global] Instance single_scalar : Scalar single := {|
  sadd := SFadd prec32 emax32;
  ssub := SFsub prec32 emax32;
  smul := SFmul prec32 emax32;
  sdiv := SFdiv prec32 emax32;
  sopp := SFopp;
  ssqrt := SFsqrt prec32 emax32;
  slit := single_lit
|}.

(** Round-to-nearest-even conversion of a binary64 value to binary32. *)
Definition double_to_single (x : float) : single :=
  match Prim2SF x with
  | S754_finite s m e => binary_round prec32 emax32 s m e
  | v => v
  end.

#[global] Instance double_narrow : Narrow float single := double_to_single.

End IEEE.

Module Ideal.

(** The same interface over the real numbers. *)
#[global] Instance real_scalar : Scalar R := {|
  sadd := Rplus;
  ssub := Rminus;
  smul := Rmult;
  sdiv := Rdiv;
  sopp := Ropp;
  ssqrt := R_sqrt.sqrt;
  slit := Q2R
|}.

#[global] Instance real_narrow : Narrow R R := fun x => x.

End Ideal.

(* ================================================================== *)
(** * The ODE model: [eqdiff] and [jacobian] *)
(* ================================================================== *)

(** [gsl_errno.h] *)
Definition GSL_SUCCESS : Z := 0.
Definition GSL_FAILURE : Z := -1.

Section OdeModel.

Context {D : Type} {num : Scalar D}.

(** [struct parameters] *)
Record parameters := mk_parameters {
  c : D;
  k : D;
  M : D;
  F : D
}.

(** A C array is the list of its cells.  A read or a write outside the
    array is undefined behaviour in C; the model has no result there. *)
Definition load (a : list D) (i : nat) : option D := a !! i.

Definition store (a : list D) (i : nat) (x : D) : option (list D) :=
  if decide (i < length a)%nat then Some (<[i := x]> a) else None.

(** [int eqdiff(double t, const double y[], double f[], void* params)]:
    the result is the returned status and the contents of [f]. *)
Definition eqdiff (t : D) (y f : list D) (params : parameters)
  : option (Z * list D) :=
  let c := c params in
  let k := k params in
  let M := M params in
  let F := F params in
  y1 ← load y 1;
  f ← store f 0 y1;
  y1 ← load y 1;
  y0 ← load y 0;
  f ← store f 1 ((F - c * y1 - k * y0) / M)%num;
  Some (GSL_SUCCESS, f).

(** [gsl_matrix] restricted to what [jacobian] uses: a view of a buffer
    as [size1] rows of [size2] cells, consecutive rows [tda] cells
    apart. *)
Record gsl_matrix := mk_gsl_matrix {
  size1 : nat;
  size2 : nat;
  tda : nat;
  data : list D
}.

Definition gsl_matrix_view_array (base : list D) (n1 n2 : nat) : gsl_matrix :=
  {| size1 := n1; size2 := n2; tda := n2; data := base |}.

Definition gsl_matrix_set (m : gsl_matrix) (i j : nat) (x : D)
  : option gsl_matrix :=
  if decide (i < size1 m /\ j < size2 m)%nat then
    d ← store (data m) (i * tda m + j) x;
    Some {| size1 := size1 m; size2 := size2 m; tda := tda m; data := d |}
  else None.

Definition gsl_matrix_get (m : gsl_matrix) (i j : nat) : option D :=
  if decide (i < size1 m /\ j < size2 m)%nat
  then load (data m) (i * tda m + j) else None.

(** [int jacobian(double t, const double y[], double* dfdy,
    double dfdt[], void* params)]: the result is the returned status and
    the contents of [dfdy] and [dfdt]. *)
Definition jacobian (t : D) (y dfdy dfdt : list D) (params : parameters)
  : option (Z * list D * list D) :=
  let c := c params in
  let k := k params in
  let M := M params in
  let m := gsl_matrix_view_array dfdy 2 2 in
  m ← gsl_matrix_set m 0 0 (slit 0);
  m ← gsl_matrix_set m 0 1 (slit 1);
  m ← gsl_matrix_set m 1 0 (- k / M)%num;
  m ← gsl_matrix_set m 1 1 (- c / M)%num;
  dfdt ← store dfdt 0 (slit 0);
  dfdt ← store dfdt 1 (slit 0);
  Some (GSL_SUCCESS, data m, dfdt).

End OdeModel.

Arguments parameters D : clear implicits.
Arguments gsl_matrix D : clear implicits.

(** ** The model read over the real numbers

    The components of the derivative function as real functions of the
    state, and the entries that [jacobian] leaves in [dfdy] (read back as a
    2x2 matrix) and in [dfdt]. *)
Section AnalyticReading.

Variable p : parameters R.

Definition derivative_component (i : nat) (t : R) (y : list R) : R :=
  match eqdiff t y [0%R; 0%R] p with
  | Some (_, f) => nth i f 0%R
  | None => 0%R
  end.

Definition jacobian_entry (t : R) (y : list R) (i j : nat) : R :=
  match jacobian t y [0%R; 0%R; 0%R; 0%R] [0%R; 0%R] p with
  | Some (_, dfdy, _) =>
      default 0%R (gsl_matrix_get (gsl_matrix_view_array dfdy 2 2) i j)
  | None => 0%R
  end.

Definition time_partial_entry (t : R) (y : list R) (i : nat) : R :=
  match jacobian t y [0%R; 0%R; 0%R; 0%R] [0%R; 0%R] p with
  | Some (_, _, dfdt) => nth i dfdt 0%R
  | None => 0%R
  end.

End AnalyticReading.

(* ================================================================== *)
(** * The rendering and windowing library, at its interface *)
(* ================================================================== *)

(** [glfw3.h] *)
Definition GLFW_RELEASE : Z := 0.
Definition GLFW_PRESS : Z := 1.
Definition GLFW_REPEAT : Z := 2.
Definition GLFW_KEY_F : Z := 70.
Definition GLFW_KEY_V : Z := 86.
Definition GLFW_KEY_LEFT_SHIFT : Z := 340.
Definition GLFW_KEY_RIGHT_SHIFT : Z := 344.

Section Vectors.

Context {S : Type} {num : Scalar S}.

(** The library's [vec2] and [vec3]: single-precision components. *)
Record vec2 := mk_vec2 { x2 : S; y2 : S }.
Record vec3 := mk_vec3 { vx : S; vy : S; vz : S }.

Definition vec3_add (a b : vec3) : vec3 :=
  mk_vec3 (vx a + vx b)%num (vy a + vy b)%num (vz a + vz b)%num.

Definition vec3_sub (a b : vec3) : vec3 :=
  mk_vec3 (vx a - vx b)%num (vy a - vy b)%num (vz a - vz b)%num.

Definition vec3_mul (a : vec3) (s : S) : vec3 :=
  mk_vec3 (vx a * s)%num (vy a * s)%num (vz a * s)%num.

Definition vec3_div (a : vec3) (s : S) : vec3 :=
  mk_vec3 (vx a / s)%num (vy a / s)%num (vz a / s)%num.

Definition norm (a : vec3) : S :=
  ssqrt (vx a * vx a + vy a * vy a + vz a * vz a)%num.

(** The unit vector from [a] toward [b]: their difference divided by its
    length.  Not a function of the program; it states what the loop is
    said to compute. *)
Definition unit_vector (a b : vec3) : vec3 :=
  vec3_div (vec3_sub b a) (norm (vec3_sub b a)).

End Vectors.

Arguments vec2 S : clear implicits.
Arguments vec3 S : clear implicits.

(** [window_structure], with the members [main.cpp] reads or writes. *)
Record window_structure := mk_window {
  width : Z;
  height : Z;
  is_full_screen : bool;
  screen_resolution_width : Z;
  screen_resolution_height : Z
}.

(** What [main.cpp] calls in the library.  The types are the library's
    structures that the program only passes around. *)
Class Cgp (D S : Type) := {
  keyboard_t : Type;
  mouse_t : Type;
  camera_control_t : Type;
  camera_projection_t : Type;
  environment_t : Type;
  mat4 : Type;
  (* window_structure *)
  window_initialize : Z -> Z -> window_structure;
  aspect_ratio : window_structure -> S;
  convert_pixel_to_relative_coordinates : window_structure -> D * D -> vec2 S;
  set_full_screen : window_structure -> window_structure;
  set_windowed_screen : window_structure -> window_structure;
  monitor_name : string;
  opengl_info_display : string;
  (* input_devices *)
  shift : keyboard_t -> bool;
  update_from_glfw_key : Z -> Z -> keyboard_t -> keyboard_t;
  position_update : vec2 S -> mouse_t -> mouse_t;
  update_from_glfw_click : Z -> Z -> mouse_t -> mouse_t;
  set_on_gui : bool -> mouse_t -> mouse_t;
  (* camera and environment *)
  set_aspect_ratio : S -> camera_projection_t -> camera_projection_t;
  projection_matrix : camera_projection_t -> mat4;
  set_camera_projection : mat4 -> environment_t -> environment_t;
  background_color : environment_t -> vec3 S;
  str_position : camera_control_t -> string;
  str_pretty_matrix_frame : camera_control_t -> string;
  str_pretty_matrix_view : camera_control_t -> string;
  (* text *)
  str_int : Z -> string;
  str_float : S -> string
}.

Section Scene.

Context {D S : Type} {cgp : Cgp D S}.

(** [scene.inputs] *)
Record input_devices := mk_inputs {
  mouse : mouse_t;
  keyboard : keyboard_t;
  time_interval : S
}.

(** [scene_structure]: the members [main.cpp] names; [members] stands for
    whatever else [scene.hpp] declares. *)
Record scene_structure (Members : Type) := mk_scene {
  window : window_structure;
  inputs : input_devices;
  camera_control : camera_control_t;
  camera_projection : camera_projection_t;
  environment : environment_t;
  p2_translation : vec3 S;        (* scene.p2.model.translation *)
  line : option (vec3 S * vec3 S);  (* segment last uploaded for scene.line *)
  members : Members
}.

End Scene.

Arguments window {D S _ Members} _.
Arguments inputs {D S _ Members} _.
Arguments camera_control {D S _ Members} _.
Arguments camera_projection {D S _ Members} _.
Arguments environment {D S _ Members} _.
Arguments p2_translation {D S _ Members} _.
Arguments line {D S _ Members} _.
Arguments members {D S _ Members} _.
Arguments mk_scene {D S _ Members}.

(** The methods of the scene that [main.cpp] calls; they are defined in
    [scene.cpp]. *)
Class SceneMethods (D S : Type) {cgp : Cgp D S} (Members : Type) := {
  scene_initialize : scene_structure Members -> scene_structure Members;
  display_gui : scene_structure Members -> scene_structure Members;
  idle_frame : scene_structure Members -> scene_structure Members;
  display_frame : scene_structure Members -> scene_structure Members;
  mouse_move_event : scene_structure Members -> scene_structure Members;
  mouse_click_event : scene_structure Members -> scene_structure Members;
  keyboard_event : scene_structure Members -> scene_structure Members
}.

(* ================================================================== *)
(** * Program state and control *)
(* ================================================================== *)

(** The process: the global [scene], the text written to [std::cout], and
    the calls made into the libraries whose effect lies outside the scene
    (OpenGL, GLFW, ImGui, GPU uploads), in program order.  [calls] is a
    partial record: it holds the calls that [main.cpp] makes as statements
    of their own.  A call whose result the program goes on to use (the
    name of the monitor, the OpenGL information, [check_file_exist]) is a
    function of the library interface or of the world, and a method of an
    object held in the scene (the window's [set_full_screen]) is a
    function on that object; neither is entered in [calls]. *)
Record process (Sc : Type) := mk_process {
  scene : Sc;
  cout : list string;
  calls : list string
}.

Arguments mk_process {Sc}.
Arguments scene {Sc} _.
Arguments cout {Sc} _.
Arguments calls {Sc} _.

(** A computation either returns to its caller or ends the process through
    [exit(code)]. *)
Inductive outcome (St A : Type) :=
| Ret (a : A) (st : St)
| Exit (code : Z) (st : St).

Arguments Ret {St A}.
Arguments Exit {St A}.

Definition Prog (St A : Type) : Type := St -> outcome St A.

#[global] Instance prog_ret {St} : MRet (Prog St) := fun A a st => Ret a st.

#[global] Instance prog_bind {St} : MBind (Prog St) := fun A B f m st =>
  match m st with
  | Ret a st' => f a st'
  | Exit code st' => Exit code st'
  end.

Definition final_state {St A} (o : outcome St A) : St :=
  match o with Ret _ st => st | Exit _ st => st end.

(** [m] started in [st] returns to its caller, with a value and in a state
    that satisfy [Q]. *)
Definition returns {St A} (m : Prog St A) (st : St) (Q : A -> St -> Prop)
  : Prop :=
  exists a st', m st = Ret a st' /\ Q a st'.

Definition exit {St A} (code : Z) : Prog St A := fun st => Exit code st.

Section Control.

Context {Sc : Type}.

Definition get_scene : Prog (process Sc) Sc := fun p => Ret (scene p) p.

Definition modify_scene (f : Sc -> Sc) : Prog (process Sc) unit := fun p =>
  Ret tt (mk_process (f (scene p)) (cout p) (calls p)).

(** [std::cout << text] *)
Definition print (text : string) : Prog (process Sc) unit := fun p =>
  Ret tt (mk_process (scene p) (cout p ++ [text]) (calls p)).

(** A call into a library, recorded by name. *)
Definition call (name : string) : Prog (process Sc) unit := fun p =>
  Ret tt (mk_process (scene p) (cout p) (calls p ++ [name])).

Definition when (b : bool) (body : Prog (process Sc) unit)
  : Prog (process Sc) unit :=
  if b then body else mret tt.

(** [m] always returns, and in a scene related by [Rs] to the one it
    started in. *)
Definition keeps {A} (Rs : Sc -> Sc -> Prop) (m : Prog (process Sc) A)
  : Prop :=
  forall p, returns m p (fun _ p' => Rs (scene p) (scene p')).

End Control.

(** [std::endl] *)
Definition endl : string := String (ascii_of_nat 10) EmptyString.

(* ================================================================== *)
(** * Input callbacks *)
(* ================================================================== *)

Section Callbacks.

Context {D S : Type} {numD : Scalar D} {numS : Scalar S} {conv : Narrow D S}.
Context {cgp : Cgp D S} {Members : Type} {methods : SceneMethods D S Members}.

#[local] Abbreviation scene_t := (scene_structure Members).
#[local] Abbreviation proc := (process scene_t).

Definition with_window (f : window_structure -> window_structure)
  (sc : scene_t) : scene_t :=
  mk_scene (f (window sc)) (inputs sc) (camera_control sc)
    (camera_projection sc) (environment sc) (p2_translation sc) (line sc)
    (members sc).

Definition with_inputs (f : input_devices -> input_devices)
  (sc : scene_t) : scene_t :=
  mk_scene (window sc) (f (inputs sc)) (camera_control sc)
    (camera_projection sc) (environment sc) (p2_translation sc) (line sc)
    (members sc).

Definition with_mouse (f : mouse_t -> mouse_t) (i : input_devices)
  : input_devices :=
  mk_inputs (f (mouse i)) (keyboard i) (time_interval i).

Definition with_keyboard (f : keyboard_t -> keyboard_t) (i : input_devices)
  : input_devices :=
  mk_inputs (mouse i) (f (keyboard i)) (time_interval i).

Definition set_size (w h : Z) (win : window_structure) : window_structure :=
  mk_window w h (is_full_screen win) (screen_resolution_width win)
    (screen_resolution_height win).

Definition set_is_full_screen (b : bool) (win : window_structure)
  : window_structure :=
  mk_window (width win) (height win) b (screen_resolution_width win)
    (screen_resolution_height win).

(** [void window_size_callback(GLFWwindow*, int width, int height)] *)
Definition window_size_callback (width height : Z) : Prog proc unit :=
  modify_scene (with_window (set_size width height)).

(** [void mouse_move_callback(GLFWwindow*, double xpos, double ypos)] *)
Definition mouse_move_callback (xpos ypos : D) : Prog proc unit :=
  sc ← get_scene;
  let pos_relative :=
    convert_pixel_to_relative_coordinates (window sc) (xpos, ypos) in
  modify_scene (with_inputs (with_mouse (position_update pos_relative)));;
  modify_scene mouse_move_event.

(** [void mouse_click_callback(GLFWwindow*, int button, int action, int)] *)
Definition mouse_click_callback (button action mods : Z) : Prog proc unit :=
  modify_scene
    (with_inputs (with_mouse (update_from_glfw_click button action)));;
  modify_scene mouse_click_event.

(** The two shortcuts at the end of [keyboard_callback]. *)
Definition full_screen_shortcut (key action : Z) : Prog proc unit :=
  sc ← get_scene;
  when ((key =? GLFW_KEY_F) && (action =? GLFW_PRESS)
        && shift (keyboard (inputs sc)))
    (modify_scene (with_window (fun w =>
       set_is_full_screen (negb (is_full_screen w)) w));;
     sc ← get_scene;
     if is_full_screen (window sc)
     then modify_scene (with_window set_full_screen)
     else modify_scene (with_window set_windowed_screen)).

Definition camera_debug_shortcut (key action : Z) : Prog proc unit :=
  sc ← get_scene;
  when ((key =? GLFW_KEY_V) && (action =? GLFW_PRESS)
        && shift (keyboard (inputs sc)))
    (let camera_model := camera_control sc in
     print (endl ++ "Debug camera (position = " ++ str_position camera_model
            ++ "):" ++ endl ++ endl);;
     print ("  Frame matrix:" ++ endl);;
     print (str_pretty_matrix_frame camera_model ++ endl);;
     print ("  View matrix:" ++ endl);;
     print (str_pretty_matrix_view camera_model ++ endl)).

(** [void keyboard_callback(GLFWwindow*, int key, int, int action, int)] *)
Definition keyboard_callback (key scancode action mods : Z)
  : Prog proc unit :=
  modify_scene
    (with_inputs (with_keyboard (update_from_glfw_key key action)));;
  modify_scene keyboard_event;;
  full_screen_shortcut key action;;
  camera_debug_shortcut key action.

(** An event delivered by [glfwPollEvents] to its registered callback. *)
Inductive event :=
| WindowSize (width height : Z)
| MouseMove (xpos ypos : D)
| MouseClick (button action mods : Z)
| Key (key scancode action mods : Z).

Definition dispatch (e : event) : Prog proc unit :=
  match e with
  | WindowSize w h => window_size_callback w h
  | MouseMove x y => mouse_move_callback x y
  | MouseClick b a m => mouse_click_callback b a m
  | Key k sc a m => keyboard_callback k sc a m
  end.

Fixpoint dispatch_all (es : list event) : Prog proc unit :=
  match es with
  | [] => mret tt
  | e :: es => dispatch e;; dispatch_all es
  end.

End Callbacks.

(* ================================================================== *)
(** * The ODE solver, at its interface *)
(* ================================================================== *)

(** The stepping functions of [gsl_odeiv2.h]. *)
Inductive gsl_odeiv2_step_type :=
| gsl_odeiv2_step_rk2
| gsl_odeiv2_step_rk4
| gsl_odeiv2_step_rkf45
| gsl_odeiv2_step_rkck
| gsl_odeiv2_step_rk8pd
| gsl_odeiv2_step_rk1imp
| gsl_odeiv2_step_rk2imp
| gsl_odeiv2_step_rk4imp
| gsl_odeiv2_step_bsimp
| gsl_odeiv2_step_msadams
| gsl_odeiv2_step_msbdf.

(** The implicit steppers, which solve for the new state with the help of
    the Jacobian: the implicit Runge-Kutta family ([rk1imp] is the backward
    Euler method), implicit Bulirsch-Stoer and the BDF multistep method. *)
Definition implicit_stepper (T : gsl_odeiv2_step_type) : bool :=
  match T with
  | gsl_odeiv2_step_rk1imp | gsl_odeiv2_step_rk2imp | gsl_odeiv2_step_rk4imp
  | gsl_odeiv2_step_bsimp | gsl_odeiv2_step_msbdf => true
  | _ => false
  end.

Section Solver.

Context {D : Type} {num : Scalar D}.

(** [gsl_odeiv2_system]: [{function, jacobian, dimension, params}] *)
Record gsl_odeiv2_system := mk_system {
  sys_function : D -> list D -> list D -> parameters D -> option (Z * list D);
  sys_jacobian : D -> list D -> list D -> list D -> parameters D
                 -> option (Z * list D * list D);
  dimension : nat;
  params : parameters D
}.

(** [gsl_odeiv2_driver]: the system, the stepper, the current step size
    and the two tolerances of the error control, which keeps the local
    error of component [i] below [epsabs + epsrel * |y_i|]. *)
Record gsl_odeiv2_driver := mk_driver {
  sys : gsl_odeiv2_system;
  stepper : gsl_odeiv2_step_type;
  h : D;
  epsabs : D;
  epsrel : D
}.

(** [gsl_odeiv2_driver_alloc_y_new(sys, T, hstart, epsabs, epsrel)] *)
Definition gsl_odeiv2_driver_alloc_y_new (sys : gsl_odeiv2_system)
  (T : gsl_odeiv2_step_type) (hstart epsabs epsrel : D)
  : gsl_odeiv2_driver :=
  {| sys := sys; stepper := T; h := hstart;
     epsabs := epsabs; epsrel := epsrel |}.

End Solver.

Arguments gsl_odeiv2_system D : clear implicits.
Arguments gsl_odeiv2_driver D : clear implicits.

(** An error control that is neither purely absolute nor purely relative:
    both tolerances take part in the bound. *)
Definition mixed_error_control {D : Type} {num : Scalar D}
  (d : gsl_odeiv2_driver D) : Prop :=
  epsabs d <> slit 0 /\ epsrel d <> slit 0.

(** [gsl_odeiv2_driver_apply(d, &t, t1, y)]: evolves [(t, y)] towards [t1]
    and returns a status, [GSL_SUCCESS] or an error code; the result holds
    the status, the driver and the values left in [t] and [y]. *)
Class Gsl (D : Type) := {
  gsl_odeiv2_driver_apply :
    gsl_odeiv2_driver D -> D -> D -> D * D
    -> Z * gsl_odeiv2_driver D * D * (D * D)
}.

(** The solver [gsl], except that every call reports [status]. *)
Definition with_status {D : Type} (status : Z) (gsl : Gsl D) : Gsl D := {|
  gsl_odeiv2_driver_apply := fun d t t1 y =>
    let '(_, d', t', y') := gsl_odeiv2_driver_apply d t t1 y in
    (status, d', t', y')
|}.

(* ================================================================== *)
(** * [main]: start-up, animation loop, shutdown *)
(* ================================================================== *)

Section Main.

Context {D S : Type} {numD : Scalar D} {numS : Scalar S} {conv : Narrow D S}.
Context {cgp : Cgp D S} {Members : Type} {methods : SceneMethods D S Members}.
Context {gsl : Gsl D}.

#[local] Abbreviation scene_t := (scene_structure Members).
#[local] Abbreviation proc := (process scene_t).

(** What one pass of the loop receives from outside the program. *)
Record frame := mk_frame {
  elapsed : S;                 (* fps_record.update() *)
  fps_event : option S;        (* fps_record.fps when fps_record.event *)
  want_capture_mouse : bool;   (* ImGui::GetIO().WantCaptureMouse *)
  polled : list (event (D := D))  (* delivered inside glfwPollEvents *)
}.

(** A run of the process: its name, the file system as seen by
    [check_file_exist], and one [frame] for each pass of the loop made
    before [glfwWindowShouldClose] answers true. *)
Record world := mk_world {
  argv0 : string;
  check_file_exist : string -> bool;
  frames : list frame
}.

Definition with_camera_projection
  (f : camera_projection_t -> camera_projection_t) (sc : scene_t) : scene_t :=
  mk_scene (window sc) (inputs sc) (camera_control sc)
    (f (camera_projection sc)) (environment sc) (p2_translation sc)
    (line sc) (members sc).

Definition with_environment (f : environment_t -> environment_t)
  (sc : scene_t) : scene_t :=
  mk_scene (window sc) (inputs sc) (camera_control sc)
    (camera_projection sc) (f (environment sc)) (p2_translation sc)
    (line sc) (members sc).

Definition with_p2_translation (f : vec3 S -> vec3 S) (sc : scene_t)
  : scene_t :=
  mk_scene (window sc) (inputs sc) (camera_control sc)
    (camera_projection sc) (environment sc) (f (p2_translation sc))
    (line sc) (members sc).

Definition with_line (l : vec3 S * vec3 S) (sc : scene_t) : scene_t :=
  mk_scene (window sc) (inputs sc) (camera_control sc)
    (camera_projection sc) (environment sc) (p2_translation sc)
    (Some l) (members sc).

Definition set_time_interval (dt : S) (i : input_devices) : input_devices :=
  mk_inputs (mouse i) (keyboard i) dt.

(** [window_structure standard_window_initialization(int, int)] *)
Definition standard_window_initialization (width_target height_target : Z)
  : Prog proc window_structure :=
  call "window.initialize";;
  let window := window_initialize width_target height_target in
  print (endl ++ "Window (" ++ str_int (width window) ++ "px x "
         ++ str_int (height window) ++ "px) created" ++ endl);;
  print ("Monitor: " ++ monitor_name ++ " - Resolution ("
         ++ str_int (screen_resolution_width window) ++ "x"
         ++ str_int (screen_resolution_height window) ++ ")"
         ++ endl ++ endl);;
  print ("OpenGL Information:" ++ endl);;
  print (opengl_info_display ++ endl);;
  call "cgp::imgui_init";;
  call "glfwSetMouseButtonCallback";;
  call "glfwSetCursorPosCallback";;
  call "glfwSetWindowSizeCallback";;
  call "glfwSetKeyCallback";;
  mret window.

(** [static void display_error_file_access()]: four lines written to
    [std::cout], each ended by [std::endl]. *)
Definition error_file_access_text : list string :=
  [ "[ERROR File Access] The default initialization from helper_common_scene tried to load the shader file shaders/mesh/vert.glsl but cannot not find it" ++ endl;
    "  => In most situation, the problem is the following: Your executable is not run from the root directory of this scene, and the directory shaders/ is therefore not accessible. " ++ endl;
    "  => To solve this problem, you may need to adjust your IDE settings (or your placement in command line) such that your executable is run from the parent directory of shaders/. Then run again the program. " ++ endl;
    endl ++ endl ++ "The program will now exit" ++ endl ]%string.

Fixpoint print_all (texts : list string) : Prog proc unit :=
  match texts with
  | [] => mret tt
  | text :: texts => print text;; print_all texts
  end.

Definition display_error_file_access : Prog proc unit :=
  print_all error_file_access_text.

(** [void initialize_default_shaders()], in a run in which the library's
    loader finds its files: each of its calls returns and writes nothing.
    [initialize_default_shaders_with] below has the loader as a
    parameter. *)
Definition initialize_default_shaders (w : world) : Prog proc unit :=
  (if negb (check_file_exist w "../shaders/mesh/vert.glsl")
   then display_error_file_access;; exit 1
   else mret tt);;
  call "mesh_drawable::default_shader.load";;
  call "mesh_drawable::default_texture.initialize_texture_2d_on_gpu";;
  call "curve_drawable::default_shader.load".

(** The locals of [main] that live across passes of the loop:
    [d], [t], [y] and [ti].  [y] is [double y[2]], a pair here; [ti] is an
    [int], whose overflow is undefined in C++, an integer here: what is
    said of [ti] is said of the source for values within the range of
    [int]. *)
Record locals := mk_locals {
  d : gsl_odeiv2_driver D;
  t : D;
  y : D * D;
  ti : Z
}.

(** The lines under [// Physics].  The value returned by
    [gsl_odeiv2_driver_apply] is not used; [y[0]] and [y[1]] are converted
    to single precision where they meet a [vec3]. *)
Definition physics (l : locals) : Prog proc locals :=
  let '(status, d, t, y) :=
    gsl_odeiv2_driver_apply (d l) (t l) (slit (inject_Z (ti l))) (y l) in
  let p2dir :=
    vec3_sub (mk_vec3 (slit 0) (slit 0) (narrow (fst y)))
             (mk_vec3 (slit 0) (slit 0) (slit 3)) in
  let p2dir := vec3_div p2dir (norm p2dir) in
  modify_scene (with_p2_translation (fun translation =>
    vec3_add translation (vec3_mul p2dir (narrow (snd y)))));;
  sc ← get_scene;
  call "scene.line.initialize_data_on_gpu";;
  modify_scene
    (with_line (mk_vec3 (slit 0) (slit 0) (slit 2), p2_translation sc));;
  mret (mk_locals d t y (ti l)).

(** The displacement that the loop is said to apply for a solver state
    [y]: the unit vector from the anchor (0,0,3) toward the point
    (0,0,y[0]), scaled by y[1].  Not a function of the program. *)
Definition displacement_of (y : D * D) : vec3 S :=
  vec3_mul
    (unit_vector (mk_vec3 (slit 0) (slit 0) (slit 3))
                 (mk_vec3 (slit 0) (slit 0) (narrow (fst y))))
    (narrow (snd y)).

(** The displacement as the claim about it words it: the unit vector from
    the anchor toward the position of the object, scaled by the velocity.
    Not a function of the program. *)
Definition displacement_toward_object (position : vec3 S) (velocity : D)
  : vec3 S :=
  vec3_mul (unit_vector (mk_vec3 (slit 0) (slit 0) (slit 3)) position)
           (narrow velocity).

(** The locals after one more pass of the loop, whatever status the
    solver returns, and the states that the solver leaves in [y] over [n]
    successive passes, oldest first. *)
Definition next_locals (l : locals) : locals :=
  let '(status, d, t, y) :=
    gsl_odeiv2_driver_apply (d l) (t l) (slit (inject_Z (ti l))) (y l) in
  mk_locals d t y (ti l + 1).

Fixpoint solver_states (n : nat) (l : locals) : list (D * D) :=
  match n with
  | O => []
  | Datatypes.S n => y (next_locals l) :: solver_states n (next_locals l)
  end.

(** The body of the [while] loop, in three parts: from its first line to
    the lines under [// Physics], those lines, and the rest. *)
Definition frame_setup (fr : frame) : Prog proc unit :=
  sc ← get_scene;
  modify_scene
    (with_camera_projection (set_aspect_ratio (aspect_ratio (window sc))));;
  sc ← get_scene;
  modify_scene (with_environment
    (set_camera_projection (projection_matrix (camera_projection sc))));;
  call "glViewport";;
  call "glPointSize";;
  call "glClearColor";;
  call "glClear";;
  call "glClear";;
  call "glEnable";;
  let time_interval := elapsed fr in
  match fps_event fr with
  | Some fps =>
      let title := ("CGP Display - " ++ str_float fps ++ " fps")%string in
      call ("glfwSetWindowTitle " ++ title)%string
  | None => mret tt
  end;;
  call "imgui_create_frame";;
  call "ImGui::Begin";;
  modify_scene
    (with_inputs (with_mouse (set_on_gui (want_capture_mouse fr))));;
  modify_scene (with_inputs (set_time_interval time_interval)).

Definition frame_finish (fr : frame) : Prog proc unit :=
  modify_scene display_gui;;
  modify_scene idle_frame;;
  modify_scene display_frame;;
  call "ImGui::End";;
  call "imgui_render_frame";;
  call "glfwSwapBuffers";;
  call "glfwPollEvents";;
  dispatch_all (polled fr).

Definition iteration (fr : frame) (l : locals) : Prog proc locals :=
  frame_setup fr;;
  l ← physics l;
  frame_finish fr;;
  mret (mk_locals (d l) (t l) (y l) (ti l + 1)).

(** [while (!glfwWindowShouldClose(...)) { ... }] *)
Fixpoint animation_loop (frs : list frame) (l : locals) : Prog proc locals :=
  match frs with
  | [] => mret l
  | fr :: frs => l ← iteration fr l; animation_loop frs l
  end.

(** The driver that [main] allocates. *)
Definition main_driver : gsl_odeiv2_driver D :=
  let parameters :=
    {| c := slit 0.2; k := slit 2; M := slit 20; F := slit 5 |} in
  let sys := mk_system eqdiff jacobian 2 parameters in
  gsl_odeiv2_driver_alloc_y_new sys gsl_odeiv2_step_rk1imp
    (slit 1e-6) (slit 1e-6) (slit 0).

(** [int main(int, char* argv[])]: the result is the value returned.
    The zero literals, written 0.0 in the source, are [slit 0].  The
    loader is the one of [initialize_default_shaders]; [main_with] below
    has it as a parameter. *)
Definition main (w : world) : Prog proc Z :=
  print ("Run " ++ argv0 w ++ endl);;
  window ← standard_window_initialization 0 0;
  modify_scene (with_window (fun _ => window));;
  initialize_default_shaders w;;
  print ("Initialize data of the scene ..." ++ endl);;
  modify_scene scene_initialize;;
  print ("Initialization finished" ++ endl ++ endl);;
  let d := main_driver in
  let t := slit 0 in
  let y := (slit 0.5, slit 0) in
  print ("Start animation loop ..." ++ endl);;
  call "fps_record.start";;
  let ti := 1 in
  _ ← animation_loop (frames w) (mk_locals d t y ti);
  print (endl ++ "Animation loop stopped" ++ endl);;
  call "cgp::imgui_cleanup";;
  call "glfwDestroyWindow";;
  call "glfwTerminate";;
  call "gsl_odeiv2_driver_free";;
  mret 0.

(** The exit status of the process. *)
Definition exit_status (o : outcome proc Z) : Z :=
  match o with Ret v _ => v | Exit code _ => code end.

(** ** The displacement written out on the scalars

    What a pass of the loop is said to add to the translation, component
    by component and with the operations of the scalar type alone: the
    difference between the point (0,0,z) and the anchor (0,0,3), divided by
    its length, then multiplied by the velocity.  Not functions of the
    program; the theorems compare the program with them. *)
Definition direction_components (z : S) : S * S * S :=
  let dx := (slit 0 - slit 0)%num in
  let dy := (slit 0 - slit 0)%num in
  let dz := (z - slit 3)%num in
  let n := ssqrt (dx * dx + dy * dy + dz * dz)%num in
  ((dx / n)%num, (dy / n)%num, (dz / n)%num).

Definition displacement_components (y : D * D) : S * S * S :=
  let u := direction_components (narrow (fst y)) in
  let v := narrow (snd y) in
  ((u.1.1 * v)%num, (u.1.2 * v)%num, (u.2 * v)%num).

Definition moved_by (tr : vec3 S) (dsp : S * S * S) : vec3 S :=
  mk_vec3 (vx tr + dsp.1.1)%num (vy tr + dsp.1.2)%num (vz tr + dsp.2)%num.

(** ** The shader loader as a collaborator

    [initialize_default_shaders] hands the shader paths to the library's
    loader, whose code is not part of [main.cpp].  As far as [main.cpp]
    can tell, a call of the loader writes some text and then returns, or
    ends the process with a code; it is given the file system and the two
    paths.  [initialize_default_shaders] and [main] above are the case of
    a loader that returns without a word. *)
Record loader_outcome := mk_loader_outcome {
  loader_text : list string;
  loader_exit : option Z
}.

Definition shader_loader : Type :=
  (string -> bool) -> string -> string -> loader_outcome.

Definition quiet_loader : shader_loader :=
  fun _ _ _ => mk_loader_outcome [] None.

Definition load_shader (load : shader_loader) (name : string)
  (file_exist : string -> bool) (vertex fragment : string) : Prog proc unit :=
  call name;;
  print_all (loader_text (load file_exist vertex fragment));;
  match loader_exit (load file_exist vertex fragment) with
  | Some code => exit code
  | None => mret tt
  end.

(** [void initialize_default_shaders()], the loader given. *)
Definition initialize_default_shaders_with (load : shader_loader) (w : world)
  : Prog proc unit :=
  (if negb (check_file_exist w "../shaders/mesh/vert.glsl")
   then display_error_file_access;; exit 1
   else mret tt);;
  load_shader load "mesh_drawable::default_shader.load" (check_file_exist w)
    "../shaders/mesh/vert.glsl" "../shaders/mesh/frag.glsl";;
  call "mesh_drawable::default_texture.initialize_texture_2d_on_gpu";;
  load_shader load "curve_drawable::default_shader.load" (check_file_exist w)
    "../shaders/single_color/vert.glsl" "../shaders/single_color/frag.glsl".

(** The shader files that [initialize_default_shaders] names, in the order
    in which it comes to them. *)
Definition required_shader_files : list string :=
  [ "../shaders/mesh/vert.glsl"; "../shaders/mesh/frag.glsl";
    "../shaders/single_color/vert.glsl";
    "../shaders/single_color/frag.glsl" ]%string.

(** Modelled from the spec: the library's shader loader is not part of
    [main.cpp].  By the spec a required shader file that is not found is
    reported with a descriptive diagnostic and ends the process at once
    with a non-zero code: a loader that is handed a path with no file
    behind it ends the process, and whenever it ends the process it has
    written something and the code is not zero. *)
Definition reports_missing_files (load : shader_loader) : Prop :=
  forall (file_exist : string -> bool) (vertex fragment : string),
    ((file_exist vertex = false \/ file_exist fragment = false) ->
     loader_exit (load file_exist vertex fragment) <> None)
    /\ (forall code : Z,
          loader_exit (load file_exist vertex fragment) = Some code ->
          code <> 0 /\ loader_text (load file_exist vertex fragment) <> []).

(** [int main(int, char* argv[])], the loader given. *)
Definition main_with (load : shader_loader) (w : world) : Prog proc Z :=
  print ("Run " ++ argv0 w ++ endl);;
  window ← standard_window_initialization 0 0;
  modify_scene (with_window (fun _ => window));;
  initialize_default_shaders_with load w;;
  print ("Initialize data of the scene ..." ++ endl);;
  modify_scene scene_initialize;;
  print ("Initialization finished" ++ endl ++ endl);;
  let d := main_driver in
  let t := slit 0 in
  let y := (slit 0.5, slit 0) in
  print ("Start animation loop ..." ++ endl);;
  call "fps_record.start";;
  let ti := 1 in
  _ ← animation_loop (frames w) (mk_locals d t y ti);
  print (endl ++ "Animation loop stopped" ++ endl);;
  call "cgp::imgui_cleanup";;
  call "glfwDestroyWindow";;
  call "glfwTerminate";;
  call "gsl_odeiv2_driver_free";;
  mret 0.

(** The state in which [main] comes to [initialize_default_shaders]: the
    window is initialised, five texts are written and six library calls
    are made. *)
Definition startup_state (w : world) (p : proc) : proc :=
  let window := window_initialize 0 0 in
  mk_process
    (with_window (fun _ => window) (scene p))
    (cout p ++
     [ "Run " ++ argv0 w ++ endl;
       endl ++ "Window (" ++ str_int (width window) ++ "px x "
         ++ str_int (height window) ++ "px) created" ++ endl;
       "Monitor: " ++ monitor_name ++ " - Resolution ("
         ++ str_int (screen_resolution_width window) ++ "x"
         ++ str_int (screen_resolution_height window) ++ ")"
         ++ endl ++ endl;
       "OpenGL Information:" ++ endl;
       opengl_info_display ++ endl ]%string)
    (calls p ++ ["window.initialize"; "cgp::imgui_init";
                 "glfwSetMouseButtonCallback";
                 "glfwSetCursorPosCallback";
                 "glfwSetWindowSizeCallback";
                 "glfwSetKeyCallback"]%string).

End Main.

(* ================================================================== *)
(** * Stand-ins for the collaborators *)
(* ================================================================== *)

(** Concrete collaborators on machine floats, used to run the model. *)
Module Reference.

Import IEEE.
#[local] Open Scope string_scope.
#[local] Open Scope Z_scope.

Definition GLFW_MOUSE_BUTTON_LEFT : Z := 0.
Definition GLFW_MOUSE_BUTTON_RIGHT : Z := 1.

(** Modelled from the spec: the library's keyboard state is not part of
    [main.cpp].  Keys are binary, pressed or released; a key event
    updates that state, and unknown key codes are ignored.  Only the
    shift modifier is tracked here. *)
Definition ref_update_from_glfw_key (key action : Z) (shift : bool) : bool :=
  if (key =? GLFW_KEY_LEFT_SHIFT) || (key =? GLFW_KEY_RIGHT_SHIFT) then
    if action =? GLFW_PRESS then true
    else if action =? GLFW_RELEASE then false
    else shift
  else shift.

(** Modelled from the spec: the library's mouse state is not part of
    [main.cpp].  It holds the position and the binary state of the
    buttons; unknown button codes are ignored. *)
Record ref_mouse := mk_ref_mouse {
  ref_position : vec2 single;
  ref_left : bool;
  ref_right : bool;
  ref_on_gui : bool
}.

Definition ref_position_update (p : vec2 single) (m : ref_mouse) : ref_mouse :=
  mk_ref_mouse p (ref_left m) (ref_right m) (ref_on_gui m).

Definition ref_update_from_glfw_click (button action : Z) (m : ref_mouse)
  : ref_mouse :=
  let pressed (b : bool) :=
    if action =? GLFW_PRESS then true
    else if action =? GLFW_RELEASE then false else b in
  if button =? GLFW_MOUSE_BUTTON_LEFT then
    mk_ref_mouse (ref_position m) (pressed (ref_left m)) (ref_right m)
      (ref_on_gui m)
  else if button =? GLFW_MOUSE_BUTTON_RIGHT then
    mk_ref_mouse (ref_position m) (ref_left m) (pressed (ref_right m))
      (ref_on_gui m)
  else m.

Definition ref_set_on_gui (b : bool) (m : ref_mouse) : ref_mouse :=
  mk_ref_mouse (ref_position m) (ref_left m) (ref_right m) b.

Definition ref_str_int (z : Z) : string :=
  NilZero.string_of_int (Z.to_int z).

(** Pixel coordinates mapped to the square from -1 to 1. *)
Definition ref_relative (win : window_structure) (p : float * float)
  : vec2 single :=
  let w : float := slit (inject_Z (width win)) in
  let h : float := slit (inject_Z (height win)) in
  mk_vec2 (narrow (slit 2 * fst p / w - slit 1)%num)
          (narrow (slit 1 - slit 2 * snd p / h)%num).

#[global] Instance ref_cgp : Cgp float single := {|
  keyboard_t := bool;
  mouse_t := ref_mouse;
  camera_control_t := unit;
  camera_projection_t := single;
  environment_t := unit;
  mat4 := unit;
  window_initialize := fun w h =>
    mk_window (if w =? 0 then 1280 else w) (if h =? 0 then 720 else h)
      false 1920 1080;
  aspect_ratio := fun win =>
    (slit (inject_Z (width win)) / slit (inject_Z (height win)))%num;
  convert_pixel_to_relative_coordinates := ref_relative;
  set_full_screen := fun win =>
    mk_window (screen_resolution_width win) (screen_resolution_height win)
      true (screen_resolution_width win) (screen_resolution_height win);
  set_windowed_screen := fun win =>
    mk_window 1280 720 false (screen_resolution_width win)
      (screen_resolution_height win);
  monitor_name := "monitor";
  opengl_info_display := "";
  shift := fun s => s;
  update_from_glfw_key := ref_update_from_glfw_key;
  position_update := ref_position_update;
  update_from_glfw_click := ref_update_from_glfw_click;
  set_on_gui := ref_set_on_gui;
  set_aspect_ratio := fun a _ => a;
  projection_matrix := fun _ => tt;
  set_camera_projection := fun _ e => e;
  background_color := fun _ => mk_vec3 (slit 1) (slit 1) (slit 1);
  str_position := fun _ => "";
  str_pretty_matrix_frame := fun _ => "";
  str_pretty_matrix_view := fun _ => "";
  str_int := ref_str_int;
  str_float := fun _ => ""
|}.

(** A scene whose methods record the input state they are called with and
    leave everything else as it is. *)
Definition observe (sc : scene_structure (list input_devices))
  : scene_structure (list input_devices) :=
  mk_scene (window sc) (inputs sc) (camera_control sc)
    (camera_projection sc) (environment sc) (p2_translation sc) (line sc)
    (inputs sc :: members sc).

#[global] Instance ref_scene : SceneMethods float single (list input_devices) := {|
  scene_initialize := fun sc => sc;
  display_gui := fun sc => sc;
  idle_frame := fun sc => sc;
  display_frame := fun sc => sc;
  mouse_move_event := observe;
  mouse_click_event := observe;
  keyboard_event := observe
|}.

(** A solver that gives up at once: it reports [GSL_FAILURE] and leaves
    [t] and [y] as they are. *)
Definition failing_solver : Gsl float := {|
  gsl_odeiv2_driver_apply := fun d t t1 y => (GSL_FAILURE, d, t, y)
|}.

(** A solver that reports success, moves the time to [t1] and leaves the
    state as it finds it. *)
Definition steady_solver : Gsl float := {|
  gsl_odeiv2_driver_apply := fun d t t1 y => (GSL_SUCCESS, d, t1, y)
|}.

(** A solver that takes one backward Euler step from [t] to [t1]: it
    evaluates the system's derivative and Jacobian at [y] and solves
    [(I - h J) dy = h f] for the increment. *)
Definition backward_euler (d : gsl_odeiv2_driver float) (t t1 : float)
  (y : float * float) : Z * gsl_odeiv2_driver float * float * (float * float) :=
  let s := sys d in
  let yv := [fst y; snd y] in
  match sys_function s t yv [slit 0; slit 0] (params s),
        sys_jacobian s t yv [slit 0; slit 0; slit 0; slit 0]
          [slit 0; slit 0] (params s) with
  | Some (_, [f0; f1]), Some (_, [j00; j01; j10; j11], _) =>
      let h := (t1 - t)%num in
      let a := (slit 1 - h * j00)%num in
      let b := (- (h * j01))%num in
      let c := (- (h * j10))%num in
      let e := (slit 1 - h * j11)%num in
      let det := (a * e - b * c)%num in
      let dy0 := ((e * (h * f0) - b * (h * f1)) / det)%num in
      let dy1 := ((a * (h * f1) - c * (h * f0)) / det)%num in
      (GSL_SUCCESS, d, t1, (fst y + dy0, snd y + dy1)%num)
  | _, _ => (GSL_FAILURE, d, t, y)
  end.

Definition backward_euler_solver : Gsl float := {|
  gsl_odeiv2_driver_apply := backward_euler
|}.

(** The scene before [main] runs, and a run of three passes in which the
    user presses shift, then F, then releases F. *)
Definition scene0 : scene_structure (list input_devices) :=
  mk_scene (mk_window 0 0 false 0 0)
    (mk_inputs (mk_ref_mouse (mk_vec2 (slit 0) (slit 0)) false false false)
               false (slit 0))
    tt (slit 1) tt (mk_vec3 (slit 0) (slit 0) (slit 0)) None [].

Definition process0 : process (scene_structure (list input_devices)) :=
  mk_process scene0 [] [].

Definition quiet_frame : frame (D := float) (S := single) :=
  mk_frame (slit 0.016) None false [].

Definition demo_world (shaders_present : bool) (n : nat) : world :=
  mk_world "softbody"
    (fun path => shaders_present)
    (repeat quiet_frame n).

(** A loader that looks for its two files: when one is not there it names
    the first such file and ends the process with code 1. *)
Definition strict_loader : shader_loader :=
  fun file_exist vertex fragment =>
    if file_exist vertex && file_exist fragment
    then mk_loader_outcome [] None
    else mk_loader_outcome
           [ "Error: cannot access the shader file "
             ++ (if file_exist vertex then fragment else vertex) ++ endl ]
           (Some 1).

(** A file system in which every file is there but [missing]. *)
Definition all_but (missing : string) : string -> bool :=
  fun path => negb (String.eqb path missing).

End Reference.

(* ================================================================== *)
(** * Properties of the ODE model *)
(* ================================================================== *)

Section OdeModelFacts.

Context {D : Type} {num : Scalar D}.

(** The status is the constant [GSL_SUCCESS] on every path that returns. *)
Lemma eqdiff_status (t : D) (y f : list D) (p : parameters D) r :
  eqdiff t y f p = Some r -> r.1 = GSL_SUCCESS.
Proof.
  unfold eqdiff. intros E.
  repeat (apply bind_Some in E as (? & _ & E)).
  injection E as <-. reflexivity.
Qed.

Lemma jacobian_status (t : D) (y dfdy dfdt : list D) (p : parameters D) r :
  jacobian t y dfdy dfdt p = Some r -> r.1.1 = GSL_SUCCESS.
Proof.
  unfold jacobian. intros E.
  repeat (apply bind_Some in E as (? & _ & E)).
  injection E as <-. reflexivity.
Qed.

Lemma eqdiff_value (t : D) (y f : list D) (p : parameters D) (y0 y1 : D) :
  y !! 0%nat = Some y0 ->
  y !! 1%nat = Some y1 ->
  length f = 2%nat ->
  eqdiff t y f p
  = Some (GSL_SUCCESS, [y1; (((F p - c p * y1) - k p * y0) / M p)%num]).
Proof.
  intros H0 H1 Hf. unfold eqdiff, load. rewrite H0, H1. cbn.
  destruct f as [|f0 [|f1 [|]]]; try discriminate. reflexivity.
Qed.

Lemma jacobian_value (t : D) (y dfdy dfdt : list D) (p : parameters D) :
  length dfdy = 4%nat ->
  length dfdt = 2%nat ->
  jacobian t y dfdy dfdt p
  = Some (GSL_SUCCESS,
          [slit 0; slit 1; (- k p / M p)%num; (- c p / M p)%num],
          [slit 0; slit 0]).
Proof.
  intros Hy Ht.
  destruct dfdy as [|a0 [|a1 [|a2 [|a3 [|]]]]]; try discriminate.
  destruct dfdt as [|b0 [|b1 [|]]]; try discriminate.
  reflexivity.
Qed.

End OdeModelFacts.

(** A real function with a constant slope has that slope as derivative. *)
Lemma affine_derivative (f : R -> R) (a b x : R) :
  (forall v, f v = (a * v + b)%R) -> derivable_pt_lim f x a.
Proof.
  intros Hf eps Heps. exists (mkposreal 1 Rlt_0_1). intros h Hh _.
  rewrite !Hf.
  replace (((a * (x + h) + b - (a * x + b)) / h - a)%R) with 0%R
    by (field; exact Hh).
  rewrite Rabs_R0. exact Heps.
Qed.

(** C1. For every time [t], every state array [y] holding [y0] and [y1],
    every two-cell output array and every parameter record, [eqdiff]
    returns and leaves f[0] = y[1] and f[1] = (F - c*y[1] - k*y[0]) / M in
    the output array.  The result is a function of [y] and the parameters
    alone: it is the same for every [t] and for every previous content of
    the output array, and the model of the function has no other effect. *)
Theorem eqdiff_contract {D : Type} {num : Scalar D}
  (t : D) (y f : list D) (p : parameters D) (y0 y1 : D) :
  y !! 0%nat = Some y0 ->
  y !! 1%nat = Some y1 ->
  length f = 2%nat ->
  exists f', eqdiff t y f p = Some (GSL_SUCCESS, f') /\
    f' !! 0%nat = Some y1 /\
    f' !! 1%nat = Some (((F p - c p * y1) - k p * y0) / M p)%num /\
    length f' = 2%nat /\
    forall (t2 : D) (g : list D),
      length g = 2%nat -> eqdiff t2 y g p = eqdiff t y f p.
Proof.
  intros H0 H1 Hf. eexists. split; [apply (eqdiff_value t y f p y0 y1); assumption|].
  repeat split. intros t2 g Hg.
  rewrite (eqdiff_value t y f p y0 y1), (eqdiff_value t2 y g p y0 y1); auto.
Qed.

(** The derivative at the start of the demonstration, on machine doubles:
    position 0.5, velocity 0, parameters c = 0.2, k = 2, M = 20, F = 5. *)
Lemma eqdiff_contract_witness :
  exists f', eqdiff (D := float) (slit 0) [slit 0.5; slit 0] [slit 7; slit 7]
               (mk_parameters (slit 0.2) (slit 2) (slit 20) (slit 5))
             = Some (GSL_SUCCESS, f') /\
    f' !! 0%nat = Some (slit 0) /\
    f' !! 1%nat = Some (((slit 5 - slit 0.2 * slit 0) - slit 2 * slit 0.5)
                        / slit 20)%num /\
    length f' = 2%nat /\
    forall (t2 : float) (g : list float),
      length g = 2%nat ->
      eqdiff t2 [slit 0.5; slit 0] g
        (mk_parameters (slit 0.2) (slit 2) (slit 20) (slit 5))
      = eqdiff (slit 0) [slit 0.5; slit 0] [slit 7; slit 7]
          (mk_parameters (slit 0.2) (slit 2) (slit 20) (slit 5)).
Proof.
  apply (eqdiff_contract (D := float) (slit 0) [slit 0.5; slit 0]
           [slit 7; slit 7]
           (mk_parameters (slit 0.2) (slit 2) (slit 20) (slit 5))
           (slit 0.5) (slit 0)); reflexivity.
Defined.

(** The analytic reading, computed. *)
Lemma derivative_component_value (q : parameters R) (i : nat) (s y0 y1 : R) :
  derivative_component q i s [y0; y1]
  = nth i [y1; ((F q - c q * y1 - k q * y0) / M q)%R] 0%R.
Proof.
  unfold derivative_component.
  rewrite (eqdiff_value s [y0; y1] [0%R; 0%R] q y0 y1) by reflexivity.
  reflexivity.
Qed.

Lemma jacobian_entry_value (q : parameters R) (t : R) (y : list R) (i j : nat) :
  jacobian_entry q t y i j
  = nth j (nth i [[0%R; 1%R]; [(- k q / M q)%R; (- c q / M q)%R]] []) 0%R.
Proof.
  unfold jacobian_entry. rewrite jacobian_value by reflexivity.
  unfold gsl_matrix_get, gsl_matrix_view_array, load. cbn [size1 size2 tda data].
  destruct (decide (i < 2 /\ j < 2)%nat) as [[Hi Hj]|Hn].
  - destruct i as [|[|i]]; [| |lia]; (destruct j as [|[|j]]; [| |lia]);
      cbn; unfold Q2R; cbn; lra.
  - destruct i as [|[|i]]; [| |destruct i, j; reflexivity];
      (destruct j as [|[|j]]; [lia|lia|]); destruct j; reflexivity.
Qed.

Lemma time_partial_entry_value (q : parameters R) (t : R) (y : list R) (i : nat) :
  time_partial_entry q t y i = 0%R.
Proof.
  unfold time_partial_entry. rewrite jacobian_value by reflexivity.
  destruct i as [|[|i]]; cbn; unfold Q2R; cbn; try lra.
  destruct i; reflexivity.
Qed.

(** C2. For every input, [jacobian] returns and leaves the row-major matrix
    [[0, 1], [-k/M, -c/M]] in [dfdy] and [0, 0] in [dfdt], whatever [t],
    [y] and the previous contents of the two arrays.  Read over the reals
    with M > 0, entry (i, j) of that matrix is the partial derivative of
    component i of [eqdiff] with respect to y[j], and entry i of [dfdt] is
    its partial derivative with respect to t, at every state and time. *)
Theorem jacobian_contract {D : Type} {num : Scalar D}
  (t : D) (y dfdy dfdt : list D) (p : parameters D)
  (q : parameters R) (tq : R) (yq : list R) :
  length dfdy = 4%nat ->
  length dfdt = 2%nat ->
  (M q > 0)%R ->
  jacobian t y dfdy dfdt p
  = Some (GSL_SUCCESS,
          [slit 0; slit 1; (- k p / M p)%num; (- c p / M p)%num],
          [slit 0; slit 0])
  /\ (forall (i j : nat) (s y0 y1 : R),
        (i < 2)%nat -> (j < 2)%nat ->
        derivable_pt_lim
          (fun v => derivative_component q i s (<[j := v]> [y0; y1]))
          (nth j [y0; y1] 0%R)
          (jacobian_entry q tq yq i j))
  /\ (forall (i : nat) (s y0 y1 : R),
        (i < 2)%nat ->
        derivable_pt_lim
          (fun v => derivative_component q i v [y0; y1])
          s
          (time_partial_entry q tq yq i)).
Proof.
  intros Hy Ht HM. split; [apply jacobian_value; assumption|].
  assert (HM' : M q <> 0%R) by lra.
  split.
  - intros i j s y0 y1 Hi Hj.
    destruct i as [|[|i]]; [| |lia]; (destruct j as [|[|j]]; [| |lia]);
      rewrite jacobian_entry_value; cbn [nth list_insert insert].
    + apply (affine_derivative _ _ y1). intros v.
      rewrite derivative_component_value. cbn. lra.
    + apply (affine_derivative _ _ 0%R). intros v.
      rewrite derivative_component_value. cbn. lra.
    + apply (affine_derivative _ _ ((F q - c q * y1) / M q)%R). intros v.
      rewrite derivative_component_value. cbn. field. exact HM'.
    + apply (affine_derivative _ _ ((F q - k q * y0) / M q)%R). intros v.
      rewrite derivative_component_value. cbn. field. exact HM'.
  - intros i s y0 y1 Hi.
    destruct i as [|[|i]]; [| |lia]; rewrite time_partial_entry_value.
    + apply (affine_derivative _ _ y1). intros v.
      rewrite derivative_component_value. cbn. lra.
    + apply (affine_derivative _ _ ((F q - c q * y1 - k q * y0) / M q)%R).
      intros v. rewrite derivative_component_value. cbn. lra.
Qed.

(** The Jacobian on machine doubles and over the reals at the
    demonstration parameters c = 0.2, k = 2, M = 20, F = 5. *)
Lemma jacobian_contract_witness :
  jacobian (D := float) (slit 3) [slit 0.5; slit 0]
    [slit 7; slit 7; slit 7; slit 7] [slit 7; slit 7]
    (mk_parameters (slit 0.2) (slit 2) (slit 20) (slit 5))
  = Some (GSL_SUCCESS,
          [slit 0; slit 1; (- slit 2 / slit 20)%num;
           (- slit 0.2 / slit 20)%num],
          [slit 0; slit 0])
  /\ (forall (i j : nat) (s y0 y1 : R),
        (i < 2)%nat -> (j < 2)%nat ->
        derivable_pt_lim
          (fun v => derivative_component
                      (mk_parameters (slit 0.2) 2%R 20%R 5%R) i s
                      (<[j := v]> [y0; y1]))
          (nth j [y0; y1] 0%R)
          (jacobian_entry (mk_parameters (slit 0.2) 2%R 20%R 5%R)
             1%R [0%R; 0%R] i j))
  /\ (forall (i : nat) (s y0 y1 : R),
        (i < 2)%nat ->
        derivable_pt_lim
          (fun v => derivative_component
                      (mk_parameters (slit 0.2) 2%R 20%R 5%R) i v [y0; y1])
          s
          (time_partial_entry (mk_parameters (slit 0.2) 2%R 20%R 5%R)
             1%R [0%R; 0%R] i)).
Proof.
  apply (jacobian_contract (D := float) (slit 3) [slit 0.5; slit 0]
           [slit 7; slit 7; slit 7; slit 7] [slit 7; slit 7]
           (mk_parameters (slit 0.2) (slit 2) (slit 20) (slit 5))
           (mk_parameters (slit 0.2) 2%R 20%R 5%R) 1%R [0%R; 0%R]).
  - reflexivity.
  - reflexivity.
  - simpl. lra.
Defined.

(** C10. On arrays of the system's dimension, [eqdiff] and [jacobian]
    return, and with the status [GSL_SUCCESS]; on no input at all does
    either of them produce another status. *)
Theorem ode_model_never_fails {D : Type} {num : Scalar D}
  (t : D) (y f dfdy dfdt : list D) (p : parameters D) :
  length y = 2%nat ->
  length f = 2%nat ->
  length dfdy = 4%nat ->
  length dfdt = 2%nat ->
  (exists f', eqdiff t y f p = Some (GSL_SUCCESS, f'))
  /\ (exists dfdy' dfdt',
        jacobian t y dfdy dfdt p = Some (GSL_SUCCESS, dfdy', dfdt'))
  /\ (forall (t2 : D) (y2 f2 : list D) (p2 : parameters D) r,
        eqdiff t2 y2 f2 p2 = Some r -> r.1 = GSL_SUCCESS)
  /\ (forall (t2 : D) (y2 a2 b2 : list D) (p2 : parameters D) r,
        jacobian t2 y2 a2 b2 p2 = Some r -> r.1.1 = GSL_SUCCESS).
Proof.
  intros Hy Hf Ha Hb.
  destruct y as [|y0 [|y1 [|]]]; try discriminate.
  split; [|split; [|split]].
  - eexists. apply (eqdiff_value t [y0; y1] f p y0 y1); auto.
  - do 2 eexists. apply jacobian_value; assumption.
  - intros. eapply eqdiff_status; eassumption.
  - intros. eapply jacobian_status; eassumption.
Qed.

Lemma ode_model_never_fails_witness :
  (exists f', eqdiff (D := float) (slit 1) [slit 0.5; slit 0]
                [slit 0; slit 0]
                (mk_parameters (slit 0.2) (slit 2) (slit 20) (slit 5))
              = Some (GSL_SUCCESS, f'))
  /\ (exists dfdy' dfdt',
        jacobian (D := float) (slit 1) [slit 0.5; slit 0]
          [slit 0; slit 0; slit 0; slit 0] [slit 0; slit 0]
          (mk_parameters (slit 0.2) (slit 2) (slit 20) (slit 5))
        = Some (GSL_SUCCESS, dfdy', dfdt'))
  /\ (forall (t2 : float) (y2 f2 : list float) (p2 : parameters float) r,
        eqdiff t2 y2 f2 p2 = Some r -> r.1 = GSL_SUCCESS)
  /\ (forall (t2 : float) (y2 a2 b2 : list float) (p2 : parameters float) r,
        jacobian t2 y2 a2 b2 p2 = Some r -> r.1.1 = GSL_SUCCESS).
Proof.
  apply (ode_model_never_fails (D := float) (slit 1) [slit 0.5; slit 0]
           [slit 0; slit 0] [slit 0; slit 0; slit 0; slit 0]
           [slit 0; slit 0]
           (mk_parameters (slit 0.2) (slit 2) (slit 20) (slit 5)));
    reflexivity.
Defined.

(* ================================================================== *)
(** * Properties of the input callbacks *)
(* ================================================================== *)

(** C8. In the mouse-move, mouse-click and keyboard callbacks the scene
    handler is called on the scene whose input state has already been
    updated from the event: the callback's result is the handler applied to
    the updated scene (followed, for the keyboard, by the two shortcuts),
    for every handler. *)
Theorem handlers_see_updated_inputs {D S : Type} {cgp : Cgp D S}
  {Members : Type} {methods : SceneMethods D S Members}
  (p : process (scene_structure Members)) :
  (forall xpos ypos : D,
      let pos_relative :=
        convert_pixel_to_relative_coordinates (window (scene p)) (xpos, ypos) in
      let updated :=
        with_inputs (with_mouse (position_update pos_relative)) (scene p) in
      mouse (inputs updated) = position_update pos_relative (mouse (inputs (scene p)))
      /\ mouse_move_callback xpos ypos p
         = Ret tt (mk_process (mouse_move_event updated) (cout p) (calls p)))
  /\ (forall button action mods : Z,
        let updated :=
          with_inputs (with_mouse (update_from_glfw_click button action))
            (scene p) in
        mouse (inputs updated)
        = update_from_glfw_click button action (mouse (inputs (scene p)))
        /\ mouse_click_callback button action mods p
           = Ret tt (mk_process (mouse_click_event updated) (cout p) (calls p)))
  /\ (forall key scancode action mods : Z,
        let updated :=
          with_inputs (with_keyboard (update_from_glfw_key key action))
            (scene p) in
        keyboard (inputs updated)
        = update_from_glfw_key key action (keyboard (inputs (scene p)))
        /\ keyboard_callback key scancode action mods p
           = (full_screen_shortcut key action;;
              camera_debug_shortcut key action)
               (mk_process (keyboard_event updated) (cout p) (calls p))).
Proof.
  repeat split.
Qed.

Section FullScreenShortcut.

Context {D S : Type} {cgp : Cgp D S}.
Context {Members : Type} {methods : SceneMethods D S Members}.

#[local] Abbreviation proc := (process (scene_structure Members)).

(** What the shortcut relies on in code outside [main.cpp]: an event for
    the F key leaves the tracked shift state alone, the scene's keyboard
    handler touches neither that state nor the display-mode flag, and
    the two window methods leave the flag at the value just chosen. *)
Hypothesis F_key_keeps_shift : forall action kb,
  shift (update_from_glfw_key GLFW_KEY_F action kb) = shift kb.
Hypothesis handler_keeps_shift : forall sc : scene_structure Members,
  shift (keyboard (inputs (keyboard_event sc))) = shift (keyboard (inputs sc)).
Hypothesis handler_keeps_mode : forall sc : scene_structure Members,
  is_full_screen (window (keyboard_event sc)) = is_full_screen (window sc).
Hypothesis set_full_screen_mode : forall win,
  is_full_screen win = true -> is_full_screen (set_full_screen win) = true.
Hypothesis set_windowed_screen_mode : forall win,
  is_full_screen win = false ->
  is_full_screen (set_windowed_screen win) = false.

(** The scene as the shortcuts find it: after the update and the
    handler. *)
Lemma after_handler_shift (action : Z) (p : proc) :
  shift (keyboard (inputs (keyboard_event
    (with_inputs (with_keyboard (update_from_glfw_key GLFW_KEY_F action))
       (scene p)))))
  = shift (keyboard (inputs (scene p))).
Proof. rewrite handler_keeps_shift. cbn. apply F_key_keeps_shift. Qed.

Lemma after_handler_mode (key action : Z) (p : proc) :
  is_full_screen (window (keyboard_event
    (with_inputs (with_keyboard (update_from_glfw_key key action))
       (scene p))))
  = is_full_screen (window (scene p)).
Proof. rewrite handler_keeps_mode. reflexivity. Qed.

(** F pressed while shift is held: the flag is flipped. *)
Lemma key_down_flips (scancode mods : Z) (p : proc) :
  shift (keyboard (inputs (scene p))) = true ->
  is_full_screen (window (scene (final_state
    (keyboard_callback GLFW_KEY_F scancode GLFW_PRESS mods p))))
  = negb (is_full_screen (window (scene p))).
Proof.
  intros Hshift.
  pose proof (after_handler_shift GLFW_PRESS p) as Hs.
  pose proof (after_handler_mode GLFW_KEY_F GLFW_PRESS p) as Hm.
  rewrite Hshift in Hs.
  unfold keyboard_callback, full_screen_shortcut, camera_debug_shortcut.
  unfold mbind, prog_bind, modify_scene, get_scene, when. cbn.
  rewrite Hs. cbn. rewrite <- Hm.
  set (sc := keyboard_event _).
  destruct (is_full_screen (window sc)) eqn:E; cbn.
  - apply set_windowed_screen_mode. cbn. rewrite E. reflexivity.
  - apply set_full_screen_mode. cbn. rewrite E. reflexivity.
Qed.

(** F released: the flag stays. *)
Lemma key_up_keeps (scancode mods : Z) (p : proc) :
  is_full_screen (window (scene (final_state
    (keyboard_callback GLFW_KEY_F scancode GLFW_RELEASE mods p))))
  = is_full_screen (window (scene p)).
Proof.
  pose proof (after_handler_mode GLFW_KEY_F GLFW_RELEASE p) as Hm.
  unfold keyboard_callback, full_screen_shortcut, camera_debug_shortcut.
  unfold mbind, prog_bind, modify_scene, get_scene, when. cbn.
  exact Hm.
Qed.

End FullScreenShortcut.

(** C6. Whatever the display-mode flag is at the start: while the shift
    modifier is held (the keyboard state tracked in the scene says so),
    the key-down event for F flips the flag and the key-up event that
    follows leaves it as it is, so the pair of events toggles it exactly
    once.  The library and scene code called on the way must leave the
    shift state and the flag alone, as the first five premises say. *)
Theorem shift_F_toggles_once {D S : Type} {cgp : Cgp D S}
  {Members : Type} {methods : SceneMethods D S Members}
  (p : process (scene_structure Members)) (sc1 mods1 sc2 mods2 : Z) :
  (forall action kb,
      shift (update_from_glfw_key GLFW_KEY_F action kb) = shift kb) ->
  (forall sc : scene_structure Members,
      shift (keyboard (inputs (keyboard_event sc)))
      = shift (keyboard (inputs sc))) ->
  (forall sc : scene_structure Members,
      is_full_screen (window (keyboard_event sc))
      = is_full_screen (window sc)) ->
  (forall win, is_full_screen win = true ->
               is_full_screen (set_full_screen win) = true) ->
  (forall win, is_full_screen win = false ->
               is_full_screen (set_windowed_screen win) = false) ->
  shift (keyboard (inputs (scene p))) = true ->
  let p1 := final_state (keyboard_callback GLFW_KEY_F sc1 GLFW_PRESS mods1 p) in
  let p2 := final_state (keyboard_callback GLFW_KEY_F sc2 GLFW_RELEASE mods2 p1) in
  is_full_screen (window (scene p1)) = negb (is_full_screen (window (scene p)))
  /\ is_full_screen (window (scene p2)) = is_full_screen (window (scene p1))
  /\ is_full_screen (window (scene p2)) <> is_full_screen (window (scene p)).
Proof.
  intros HF Hs Hm Hfull Hwin Hshift p1 p2.
  assert (E1 : is_full_screen (window (scene p1))
               = negb (is_full_screen (window (scene p))))
    by (apply key_down_flips; assumption).
  assert (E2 : is_full_screen (window (scene p2))
               = is_full_screen (window (scene p1)))
    by (apply key_up_keeps; assumption).
  repeat split; try assumption.
  rewrite E2, E1. destruct (is_full_screen (window (scene p))); discriminate.
Qed.

(* ================================================================== *)
(** * Reasoning about computations that return *)
(* ================================================================== *)

Section ReturnsRules.

Context {St : Type}.

Lemma returns_ret {A} (a : A) (st : St) (Q : A -> St -> Prop) :
  Q a st -> returns (mret a) st Q.
Proof. intros HQ. exists a, st. split; [reflexivity|exact HQ]. Qed.

Lemma returns_bind {A B} (m : Prog St A) (f : A -> Prog St B) (st : St)
  (Q : B -> St -> Prop) :
  returns m st (fun a st' => returns (f a) st' Q) ->
  returns (m ≫= f) st Q.
Proof.
  intros (a & st' & Hm & b & st'' & Hf & HQ).
  exists b, st''. split; [|exact HQ].
  unfold mbind, prog_bind. rewrite Hm. exact Hf.
Qed.

Lemma returns_weaken {A} (m : Prog St A) (st : St) (Q Q' : A -> St -> Prop) :
  returns m st Q -> (forall a st', Q a st' -> Q' a st') -> returns m st Q'.
Proof. intros (a & st' & Hm & HQ) HQQ'. exists a, st'. auto. Qed.

End ReturnsRules.

Section ControlRules.

Context {Sc : Type}.

#[local] Abbreviation proc := (process Sc).

Lemma returns_get_scene (p : proc) (Q : Sc -> proc -> Prop) :
  Q (scene p) p -> returns get_scene p Q.
Proof. intros HQ. exists (scene p), p. auto. Qed.

Lemma returns_modify_scene (f : Sc -> Sc) (p : proc) (Q : unit -> proc -> Prop) :
  Q tt (mk_process (f (scene p)) (cout p) (calls p)) ->
  returns (modify_scene f) p Q.
Proof. intros HQ. eexists _, _. split; [reflexivity|exact HQ]. Qed.

Lemma returns_print (text : string) (p : proc) (Q : unit -> proc -> Prop) :
  Q tt (mk_process (scene p) (cout p ++ [text]) (calls p)) ->
  returns (print text) p Q.
Proof. intros HQ. eexists _, _. split; [reflexivity|exact HQ]. Qed.

Lemma returns_call (name : string) (p : proc) (Q : unit -> proc -> Prop) :
  Q tt (mk_process (scene p) (cout p) (calls p ++ [name])) ->
  returns (call name) p Q.
Proof. intros HQ. eexists _, _. split; [reflexivity|exact HQ]. Qed.

End ControlRules.

(** One step through a computation built from the primitives. *)
Ltac run_step :=
  first
    [ apply returns_bind
    | apply returns_get_scene
    | apply returns_modify_scene
    | apply returns_print
    | apply returns_call
    | apply returns_ret ].

Ltac run := repeat (run_step; cbn [scene cout calls]).

(** Rules for a relation on scenes that is reflexive and transitive. *)
Section KeepsRules.

Context {Sc : Type} (Rs : Sc -> Sc -> Prop).
Hypothesis Rs_refl : forall sc, Rs sc sc.
Hypothesis Rs_trans : forall a b c, Rs a b -> Rs b c -> Rs a c.

Lemma keeps_ret {A} (a : A) : keeps Rs (mret a : Prog (process Sc) A).
Proof. intros p. apply returns_ret. apply Rs_refl. Qed.

Lemma keeps_bind {A B} (m : Prog (process Sc) A)
  (f : A -> Prog (process Sc) B) :
  keeps Rs m -> (forall a, keeps Rs (f a)) -> keeps Rs (m ≫= f).
Proof.
  intros Hm Hf p. apply returns_bind.
  eapply returns_weaken; [apply Hm|]. intros a p' H1. cbv beta in *.
  eapply returns_weaken; [apply (Hf a p')|]. intros b p'' H2. cbv beta in *.
  eapply Rs_trans; eassumption.
Qed.

Lemma keeps_get_scene : keeps Rs (get_scene (Sc := Sc)).
Proof. intros p. apply returns_get_scene. apply Rs_refl. Qed.

Lemma keeps_print (text : string) : keeps Rs (print (Sc := Sc) text).
Proof. intros p. apply returns_print. apply Rs_refl. Qed.

Lemma keeps_call (name : string) : keeps Rs (call (Sc := Sc) name).
Proof. intros p. apply returns_call. apply Rs_refl. Qed.

Lemma keeps_modify_scene (f : Sc -> Sc) :
  (forall sc, Rs sc (f sc)) -> keeps Rs (modify_scene f).
Proof. intros Hf p. apply returns_modify_scene. apply Hf. Qed.

Lemma keeps_when (b : bool) (body : Prog (process Sc) unit) :
  keeps Rs body -> keeps Rs (when b body).
Proof. intros Hb. destruct b; [exact Hb|apply keeps_ret]. Qed.

End KeepsRules.

(* ================================================================== *)
(** * Properties of the animation loop *)
(* ================================================================== *)

Section LoopFacts.

Context {D S : Type} {numD : Scalar D} {numS : Scalar S} {conv : Narrow D S}.
Context {cgp : Cgp D S} {Members : Type} {methods : SceneMethods D S Members}.
Context {gsl : Gsl D}.

#[local] Abbreviation scene_t := (scene_structure Members).
#[local] Abbreviation proc := (process scene_t).

(** A relation on scenes that holds across every change the callbacks
    make: the window and input updates of [main.cpp] and the three
    handlers of the scene. *)
Variable Rs : scene_t -> scene_t -> Prop.
Hypothesis Rs_refl : forall sc, Rs sc sc.
Hypothesis Rs_trans : forall a b c, Rs a b -> Rs b c -> Rs a c.
Hypothesis Rs_window : forall f sc, Rs sc (with_window f sc).
Hypothesis Rs_inputs : forall f sc, Rs sc (with_inputs f sc).
Hypothesis Rs_mouse_move : forall sc, Rs sc (mouse_move_event sc).
Hypothesis Rs_mouse_click : forall sc, Rs sc (mouse_click_event sc).
Hypothesis Rs_keyboard : forall sc, Rs sc (keyboard_event sc).

Ltac keeps_step :=
  first
    [ apply (keeps_bind Rs Rs_trans); [|intros ?]
    | apply (keeps_get_scene Rs Rs_refl)
    | apply (keeps_print Rs Rs_refl)
    | apply (keeps_call Rs Rs_refl)
    | apply (keeps_ret Rs Rs_refl)
    | apply (keeps_when Rs Rs_refl)
    | apply keeps_modify_scene; solve [auto]
    | match goal with
      | |- context [if is_full_screen ?w then _ else _] =>
          destruct (is_full_screen w)
      end ].

Lemma dispatch_keeps (e : event) : keeps Rs (dispatch e).
Proof.
  destruct e; cbn;
    unfold window_size_callback, mouse_move_callback, mouse_click_callback,
      keyboard_callback, full_screen_shortcut, camera_debug_shortcut;
    repeat keeps_step.
Qed.

Lemma dispatch_all_keeps (es : list event) : keeps Rs (dispatch_all es).
Proof.
  induction es as [|e es IH]; cbn.
  - apply (keeps_ret Rs Rs_refl).
  - apply (keeps_bind Rs Rs_trans); [apply dispatch_keeps|].
    intros _. exact IH.
Qed.

(** The same for the rest of the loop body, the physics apart. *)
Hypothesis Rs_camera_projection :
  forall f sc, Rs sc (with_camera_projection f sc).
Hypothesis Rs_environment : forall f sc, Rs sc (with_environment f sc).
Hypothesis Rs_line : forall l sc, Rs sc (with_line l sc).
Hypothesis Rs_display_gui : forall sc, Rs sc (display_gui sc).
Hypothesis Rs_idle_frame : forall sc, Rs sc (idle_frame sc).
Hypothesis Rs_display_frame : forall sc, Rs sc (display_frame sc).

Lemma frame_setup_keeps (fr : frame) : keeps Rs (frame_setup fr).
Proof.
  unfold frame_setup. repeat keeps_step.
  destruct (fps_event fr); repeat keeps_step.
Qed.

Lemma frame_finish_keeps (fr : frame) : keeps Rs (frame_finish fr).
Proof.
  unfold frame_finish. repeat keeps_step. apply dispatch_all_keeps.
Qed.

(** The physics lines add [displacement_of] the solver's new state to the
    translation, whatever the status, and upload the segment again. *)
Lemma physics_spec (l : locals) (p : proc) :
  let l' := next_locals l in
  let moved :=
    with_p2_translation
      (fun translation => vec3_add translation (displacement_of (y l')))
      (scene p) in
  physics l p
  = Ret (mk_locals (d l') (t l') (y l') (ti l))
        (mk_process
           (with_line (mk_vec3 (slit 0) (slit 0) (slit 2),
                       p2_translation moved) moved)
           (cout p)
           (calls p ++ ["scene.line.initialize_data_on_gpu"%string])).
Proof.
  unfold physics, next_locals.
  destruct (gsl_odeiv2_driver_apply _ _ _ _) as [[[status d'] t'] y'].
  reflexivity.
Qed.

Lemma iteration_spec (fr : frame) (l : locals) (p : proc) :
  returns (iteration fr l) p (fun l' p' =>
    l' = next_locals l /\
    exists sc,
      Rs (scene p) sc /\
      Rs (with_p2_translation
            (fun translation =>
               vec3_add translation (displacement_of (y l'))) sc)
         (scene p')).
Proof.
  unfold iteration. apply returns_bind.
  eapply returns_weaken; [apply frame_setup_keeps|].
  intros u1 p1 H1. cbv beta in *. apply returns_bind.
  exists (mk_locals (d (next_locals l)) (t (next_locals l))
            (y (next_locals l)) (ti l)).
  eexists. split; [apply physics_spec|]. apply returns_bind.
  eapply returns_weaken; [apply frame_finish_keeps|].
  intros u2 p2 H2. cbv beta in *. apply returns_ret. cbn [scene] in H2.
  split.
  - unfold next_locals.
    destruct (gsl_odeiv2_driver_apply _ _ _ _) as [[[status d'] t'] y'].
    reflexivity.
  - exists (scene p1). split; [exact H1|].
    eapply Rs_trans; [|exact H2]. apply Rs_line.
Qed.

End LoopFacts.

(** The displacement of the program, component by component. *)
Lemma displacement_of_components {D S : Type} {numD : Scalar D}
  {numS : Scalar S} {conv : Narrow D S} (tr : vec3 S) (y : D * D) :
  vec3_add tr (displacement_of y) = moved_by tr (displacement_components y).
Proof. reflexivity. Qed.

(** Over the reals the direction from the anchor is straight down below the
    height 3 and straight up above it. *)
Lemma direction_components_real (y0 : R) :
  y0 <> 3%R ->
  direction_components (S := R) y0
  = (0%R, 0%R, if Rlt_dec y0 3 then (-1)%R else 1%R).
Proof.
  intros Hy. unfold direction_components. cbn. unfold Q2R. cbn.
  replace (0 * / 1 - 0 * / 1)%R with 0%R by lra.
  replace (y0 - 3 * / 1)%R with (y0 - 3)%R by lra.
  replace (0 * 0 + 0 * 0 + (y0 - 3) * (y0 - 3))%R with (Rsqr (y0 - 3))
    by (unfold Rsqr; lra).
  rewrite sqrt_Rsqr_abs.
  assert (Habs : Rabs (y0 - 3) <> 0%R) by (apply Rabs_no_R0; lra).
  assert (Hzero : (0 / Rabs (y0 - 3) = 0)%R)
    by (unfold Rdiv; apply Rmult_0_l).
  rewrite Hzero.
  destruct (Rlt_dec y0 3) as [Hlt|Hge].
  - rewrite Rabs_left by lra.
    replace ((y0 - 3) / - (y0 - 3))%R with (-1)%R by (field; lra).
    reflexivity.
  - rewrite Rabs_right by lra.
    replace ((y0 - 3) / (y0 - 3))%R with 1%R by (field; lra).
    reflexivity.
Qed.

Section Accumulation.

Context {D S : Type} {numD : Scalar D} {numS : Scalar S} {conv : Narrow D S}.
Context {cgp : Cgp D S} {Members : Type} {methods : SceneMethods D S Members}.
Context {gsl : Gsl D}.

#[local] Abbreviation scene_t := (scene_structure Members).

Hypothesis gui_keeps : forall sc : scene_t,
  p2_translation (display_gui sc) = p2_translation sc.
Hypothesis idle_keeps : forall sc : scene_t,
  p2_translation (idle_frame sc) = p2_translation sc.
Hypothesis display_keeps : forall sc : scene_t,
  p2_translation (display_frame sc) = p2_translation sc.
Hypothesis mouse_move_keeps : forall sc : scene_t,
  p2_translation (mouse_move_event sc) = p2_translation sc.
Hypothesis mouse_click_keeps : forall sc : scene_t,
  p2_translation (mouse_click_event sc) = p2_translation sc.
Hypothesis keyboard_keeps : forall sc : scene_t,
  p2_translation (keyboard_event sc) = p2_translation sc.

(** One pass adds one displacement. *)
Lemma iteration_translation (fr : frame) (l : locals)
  (p : process scene_t) :
  returns (iteration fr l) p (fun l' p' =>
    l' = next_locals l /\
    p2_translation (scene p')
    = vec3_add (p2_translation (scene p)) (displacement_of (y l'))).
Proof.
  eapply returns_weaken.
  - apply (iteration_spec
             (fun a b : scene_t => p2_translation b = p2_translation a));
      try solve [intros; reflexivity]; try assumption.
    intros a b c Hab Hbc. congruence.
  - intros l' p' (-> & sc & H1 & H2). split; [reflexivity|].
    rewrite H2. cbn. rewrite H1. reflexivity.
Qed.

Lemma loop_translation (frs : list frame) (l : locals)
  (p : process scene_t) :
  returns (animation_loop frs l) p (fun _ p' =>
    p2_translation (scene p')
    = fold_left vec3_add
        (map displacement_of (solver_states (length frs) l))
        (p2_translation (scene p))).
Proof.
  revert l p. induction frs as [|fr frs IH]; intros l p; cbn [animation_loop].
  - apply returns_ret. reflexivity.
  - apply returns_bind.
    eapply returns_weaken; [apply iteration_translation|].
    intros l' p' [-> Hp']. cbv beta.
    eapply returns_weaken; [apply IH|].
    intros l'' p'' Hp''. cbv beta in *. rewrite Hp'', Hp'. reflexivity.
Qed.

End Accumulation.

(** A fold of vector additions is, in each component, a fold of additions
    of scalars. *)
Lemma fold_displacements_components {D S : Type} {numD : Scalar D}
  {numS : Scalar S} {conv : Narrow D S} (ys : list (D * D)) (tr : vec3 S) :
  let total := fold_left vec3_add (map displacement_of ys) tr in
  let ds := map displacement_components ys in
  vx total = fold_left sadd (map (fun dsp => dsp.1.1) ds) (vx tr)
  /\ vy total = fold_left sadd (map (fun dsp => dsp.1.2) ds) (vy tr)
  /\ vz total = fold_left sadd (map (fun dsp => dsp.2) ds) (vz tr).
Proof.
  revert tr. induction ys as [|y0 ys IH]; intros tr; cbn [map fold_left].
  - repeat split.
  - rewrite displacement_of_components. apply (IH (moved_by tr _)).
Qed.

(** Where the addition is associative and has zero as unit, as over the
    reals, adding in turn is adding the sum. *)
Lemma fold_left_is_sum {S : Type} {numS : Scalar S} (xs : list S) (a : S) :
  (forall u v w : S, (u + v + w = u + (v + w))%num) ->
  (forall u : S, (u + slit 0 = u)%num) ->
  fold_left sadd xs a = (a + fold_right sadd (slit 0) xs)%num.
Proof.
  intros Hassoc Hzero. revert a.
  induction xs as [|x xs IH]; intros a; cbn [fold_left fold_right].
  - symmetry. apply Hzero.
  - rewrite IH. apply Hassoc.
Qed.


(** C9. The translation of the tracked object accumulates: after a run of
    n passes of the loop each of its components is the component before
    the loop to which the matching components of the n displacements, one
    for each state the solver produced, have been added in turn with the
    addition of the scalar type.  The methods of the scene called in the
    loop and from the callbacks must leave the translation alone, as the
    premises say. *)
Theorem translation_accumulates
  {D S : Type} {numD : Scalar D} {numS : Scalar S} {conv : Narrow D S}
  {cgp : Cgp D S} {Members : Type} {methods : SceneMethods D S Members}
  {gsl : Gsl D}
  (frs : list frame) (l : locals) (p : process (scene_structure Members)) :
  (forall sc, p2_translation (display_gui sc) = p2_translation sc) ->
  (forall sc, p2_translation (idle_frame sc) = p2_translation sc) ->
  (forall sc, p2_translation (display_frame sc) = p2_translation sc) ->
  (forall sc, p2_translation (mouse_move_event sc) = p2_translation sc) ->
  (forall sc, p2_translation (mouse_click_event sc) = p2_translation sc) ->
  (forall sc, p2_translation (keyboard_event sc) = p2_translation sc) ->
  exists l' p',
    animation_loop frs l p = Ret l' p' /\
    let ds :=
      map displacement_components (solver_states (length frs) l) in
    vx (p2_translation (scene p'))
    = fold_left sadd (map (fun dsp => dsp.1.1) ds)
        (vx (p2_translation (scene p)))
    /\ vy (p2_translation (scene p'))
       = fold_left sadd (map (fun dsp => dsp.1.2) ds)
           (vy (p2_translation (scene p)))
    /\ vz (p2_translation (scene p'))
       = fold_left sadd (map (fun dsp => dsp.2) ds)
           (vz (p2_translation (scene p)))
    /\ ((forall u v w : S, (u + v + w = u + (v + w))%num) ->
        (forall u : S, (u + slit 0 = u)%num) ->
        p2_translation (scene p')
        = moved_by (p2_translation (scene p))
            (fold_right sadd (slit 0) (map (fun dsp => dsp.1.1) ds),
             fold_right sadd (slit 0) (map (fun dsp => dsp.1.2) ds),
             fold_right sadd (slit 0) (map (fun dsp => dsp.2) ds))).
Proof.
  intros H1 H2 H3 H4 H5 H6.
  destruct (loop_translation H1 H2 H3 H4 H5 H6 frs l p)
    as (l' & p' & Hloop & Htr).
  exists l', p'. split; [exact Hloop|].
  cbv zeta.
  destruct (fold_displacements_components
              (solver_states (length frs) l) (p2_translation (scene p)))
    as (Hx & Hy & Hz).
  rewrite <- Htr in Hx, Hy, Hz.
  split; [exact Hx|]. split; [exact Hy|]. split; [exact Hz|].
  intros Hassoc Hzero.
  destruct (p2_translation (scene p')) as [tx ty tz].
  cbn [vx vy vz] in Hx, Hy, Hz. unfold moved_by. cbn [fst snd].
  rewrite <- !fold_left_is_sum by assumption.
  rewrite Hx, Hy, Hz. reflexivity.
Qed.

(* ================================================================== *)
(** * Properties of [main] *)
(* ================================================================== *)

Lemma bind_ext {St A B} (m : Prog St A) (f g : A -> Prog St B) (st : St) :
  (forall a st', f a st' = g a st') -> (m ≫= f) st = (m ≫= g) st.
Proof.
  intros Hfg. unfold mbind, prog_bind. destruct (m st); [apply Hfg|reflexivity].
Qed.

Section MainFacts.

Context {D S : Type} {numD : Scalar D} {numS : Scalar S} {conv : Narrow D S}.
Context {cgp : Cgp D S} {Members : Type} {methods : SceneMethods D S Members}.
Context {gsl : Gsl D}.

#[local] Abbreviation scene_t := (scene_structure Members).
#[local] Abbreviation proc := (process scene_t).

(** The loop makes one pass for each frame and returns, whatever the
    solver reports. *)
Lemma animation_loop_returns (frs : list frame) (l : locals) (p : proc) :
  returns (animation_loop frs l) p (fun l' _ =>
    ti l' = ti l + Z.of_nat (length frs)).
Proof.
  revert l p. induction frs as [|fr frs IH]; intros l p; cbn [animation_loop].
  - apply returns_ret. cbn. lia.
  - apply returns_bind.
    eapply returns_weaken;
      [apply (iteration_spec (fun _ _ : scene_t => True)); auto|].
    intros l' p' [-> _]. cbv beta.
    eapply returns_weaken; [apply IH|].
    intros l'' _ ->. cbn [length].
    unfold next_locals.
    destruct (gsl_odeiv2_driver_apply _ _ _ _) as [[[status d'] t'] y'].
    cbn [ti]. lia.
Qed.

(** Replacing the status that the solver reports changes nothing. *)
Lemma physics_with_status (status : Z) (l : locals) (p : proc) :
  physics (gsl := with_status status gsl) l p = physics l p.
Proof.
  unfold physics. cbn.
  destruct (gsl_odeiv2_driver_apply _ _ _ _) as [[[status' d'] t'] y'].
  reflexivity.
Qed.

Lemma animation_loop_with_status (status : Z) (frs : list frame)
  (l : locals) (p : proc) :
  animation_loop (gsl := with_status status gsl) frs l p
  = animation_loop frs l p.
Proof.
  revert l p. induction frs as [|fr frs IH]; intros l p; [reflexivity|].
  cbn [animation_loop]. unfold iteration, mbind, prog_bind.
  destruct (frame_setup fr p) as [u p1|]; [|reflexivity].
  rewrite physics_with_status.
  destruct (physics l p1) as [l1 p2|]; [|reflexivity].
  destruct (frame_finish fr p2) as [u2 p3|]; [|reflexivity].
  cbn. apply IH.
Qed.

Lemma print_all_returns (texts : list string) (p : proc) :
  print_all texts p
  = Ret tt (mk_process (scene p) (cout p ++ texts) (calls p)).
Proof.
  revert p. induction texts as [|text texts IH]; intros p; cbn [print_all].
  - unfold mret, prog_ret. rewrite app_nil_r. destruct p; reflexivity.
  - unfold mbind, prog_bind, print. rewrite IH. cbn.
    rewrite <- app_assoc. reflexivity.
Qed.

Lemma main_returns_zero (w : world) (p : proc) :
  check_file_exist w "../shaders/mesh/vert.glsl" = true ->
  returns (main w) p (fun code _ => code = 0).
Proof.
  intros Hfile. unfold main. run.
  rewrite Hfile. cbn [negb]. run.
  eapply returns_weaken; [apply animation_loop_returns|].
  intros l' p2 _. cbv beta. run. reflexivity.
Qed.

End MainFacts.

(** C3, as the code has it. The status that the solver reports is not
    looked at: a run in which every call of the solver reports [status],
    an error code or not, is the same run.  When the shader file is there,
    the loop makes one pass for each frame until the window is closed and
    [main] then returns 0. *)
Theorem integration_status_is_ignored
  {D S : Type} {numD : Scalar D} {numS : Scalar S} {conv : Narrow D S}
  {cgp : Cgp D S} {Members : Type} {methods : SceneMethods D S Members}
  {gsl : Gsl D}
  (status : Z) (w : world) (p : process (scene_structure Members)) :
  check_file_exist w "../shaders/mesh/vert.glsl" = true ->
  main (gsl := with_status status gsl) w p = main w p
  /\ (exists p', main w p = Ret 0 p')
  /\ (forall l p1, exists l' p2,
        animation_loop (frames w) l p1 = Ret l' p2 /\
        ti l' = ti l + Z.of_nat (length (frames w))).
Proof.
  intros Hfile. split; [|split].
  - unfold main.
    repeat (apply bind_ext; intros).
    unfold mbind, prog_bind. rewrite animation_loop_with_status. reflexivity.
  - destruct (main_returns_zero w p Hfile) as (code & p' & Hmain & ->).
    exists p'. exact Hmain.
  - intros l p1. apply animation_loop_returns.
Qed.

(** The additions of the reals meet the two laws that the sum reading of
    the accumulation asks for. *)
Lemma real_addition_laws :
  (forall u v w : R, (u + v + w = u + (v + w))%num)
  /\ (forall u : R, (u + slit 0 = u)%num).
Proof.
  split.
  - intros u v w. cbn. lra.
  - intros u. cbn. unfold Q2R. cbn. lra.
Qed.

(** With a loader that returns without a word, [main_with] is [main]. *)
Lemma main_with_quiet_loader
  {D S : Type} {numD : Scalar D} {numS : Scalar S} {conv : Narrow D S}
  {cgp : Cgp D S} {Members : Type} {methods : SceneMethods D S Members}
  {gsl : Gsl D} (w : world) (p : process (scene_structure Members)) :
  main_with quiet_loader w p = main w p.
Proof. reflexivity. Qed.

(* ================================================================== *)
(** * Shader files that are not found *)
(* ================================================================== *)

Lemma bind_ret_eq {St A B} (m : Prog St A) (f : A -> Prog St B)
  (st : St) (a : A) (st' : St) :
  m st = Ret a st' -> (m ≫= f) st = f a st'.
Proof. intros Hm. unfold mbind, prog_bind. rewrite Hm. reflexivity. Qed.

Lemma bind_exit_eq {St A B} (m : Prog St A) (f : A -> Prog St B)
  (st : St) (code : Z) (st' : St) :
  m st = Exit code st' -> (m ≫= f) st = Exit code st'.
Proof. intros Hm. unfold mbind, prog_bind. rewrite Hm. reflexivity. Qed.

Section ShaderFacts.

Context {D S : Type} {numD : Scalar D} {numS : Scalar S} {conv : Narrow D S}.
Context {cgp : Cgp D S} {Members : Type} {methods : SceneMethods D S Members}.
Context {gsl : Gsl D}.

#[local] Abbreviation scene_t := (scene_structure Members).
#[local] Abbreviation proc := (process scene_t).

Lemma standard_window_initialization_returns (wd ht : Z) (q : proc) :
  standard_window_initialization wd ht q
  = Ret (window_initialize wd ht)
      (final_state (standard_window_initialization wd ht q)).
Proof. reflexivity. Qed.

(** When [initialize_default_shaders] ends the process, so does [main],
    in the same state and with the same code, whatever the frames and
    the solver. *)
Lemma main_with_stops (load : shader_loader) (w : world) (p : proc)
  (code : Z) (q : proc) :
  initialize_default_shaders_with load w (startup_state w p) = Exit code q ->
  main_with load w p = Exit code q.
Proof.
  intros Hinit. unfold main_with.
  erewrite bind_ret_eq; [|reflexivity].
  erewrite bind_ret_eq; [|apply standard_window_initialization_returns].
  erewrite bind_ret_eq; [|reflexivity].
  apply bind_exit_eq. rewrite <- Hinit. f_equal.
  unfold startup_state, standard_window_initialization.
  unfold mbind, prog_bind, mret, prog_ret, print, call.
  cbn [final_state scene cout calls]. rewrite <- !app_assoc. reflexivity.
Qed.

Lemma main_stops (w : world) (p : proc) (code : Z) (q : proc) :
  initialize_default_shaders w (startup_state w p) = Exit code q ->
  main w p = Exit code q.
Proof. apply (main_with_stops quiet_loader). Qed.

(** A call of the loader: its text is written, then the process goes on
    or ends as the loader says. *)
Lemma load_shader_outcome (load : shader_loader) (name : string)
  (file_exist : string -> bool) (vertex fragment : string) (q : proc) :
  load_shader load name file_exist vertex fragment q
  = let o := load file_exist vertex fragment in
    let q' := mk_process (scene q) (cout q ++ loader_text o)
                (calls q ++ [name]) in
    match loader_exit o with
    | Some code => Exit code q'
    | None => Ret tt q'
    end.
Proof.
  unfold load_shader, mbind, prog_bind, call.
  rewrite print_all_returns. cbn [scene cout calls].
  destruct (loader_exit _); reflexivity.
Qed.

Lemma initialize_without_vertex_shader (load : shader_loader) (w : world)
  (q : proc) :
  check_file_exist w "../shaders/mesh/vert.glsl" = false ->
  initialize_default_shaders_with load w q
  = Exit 1 (mk_process (scene q) (cout q ++ error_file_access_text) (calls q)).
Proof.
  intros Hfile. unfold initialize_default_shaders_with. rewrite Hfile.
  cbn [negb]. unfold display_error_file_access, mbind, prog_bind.
  rewrite print_all_returns. reflexivity.
Qed.

(** With a loader that reports the files it does not find, a missing
    file among the four ends [initialize_default_shaders]. *)
Lemma initialize_reports_missing_file (load : shader_loader) (w : world)
  (q : proc) (path : string) :
  reports_missing_files load ->
  In path required_shader_files ->
  check_file_exist w path = false ->
  exists (code : Z) (text : list string) (q' : proc),
    code <> 0 /\ text <> [] /\ cout q' = cout q ++ text
    /\ scene q' = scene q
    /\ initialize_default_shaders_with load w q = Exit code q'.
Proof.
  intros Hload Hpath Hmissing.
  destruct (check_file_exist w "../shaders/mesh/vert.glsl"%string) eqn:Hvert.
  - unfold initialize_default_shaders_with. rewrite Hvert. cbn [negb].
    set (mesh := load (check_file_exist w) "../shaders/mesh/vert.glsl"%string
                   "../shaders/mesh/frag.glsl"%string).
    set (single := load (check_file_exist w)
                     "../shaders/single_color/vert.glsl"%string
                     "../shaders/single_color/frag.glsl"%string).
    destruct (Hload (check_file_exist w) "../shaders/mesh/vert.glsl"%string
                "../shaders/mesh/frag.glsl"%string) as [Hmesh_missing Hmesh_exit].
    destruct (Hload (check_file_exist w) "../shaders/single_color/vert.glsl"%string
                "../shaders/single_color/frag.glsl"%string)
      as [Hsingle_missing Hsingle_exit].
    fold mesh in Hmesh_missing, Hmesh_exit.
    fold single in Hsingle_missing, Hsingle_exit.
    unfold mbind, prog_bind, mret, prog_ret, call.
    rewrite load_shader_outcome. fold mesh. cbv zeta.
    destruct (loader_exit mesh) as [code|] eqn:Hmesh.
    + destruct (Hmesh_exit code eq_refl) as [Hcode Htext].
      eexists code, (loader_text mesh), _.
      split; [exact Hcode|]. split; [exact Htext|].
      split; [|split; [|reflexivity]]; reflexivity.
    + rewrite load_shader_outcome. fold single. cbv zeta.
      cbn [scene cout calls].
      assert (Hsingle : loader_exit single <> None).
      { apply Hsingle_missing.
        destruct Hpath as [<-|[<-|[<-|[<-|[]]]]].
        - congruence.
        - exfalso. apply Hmesh_missing; [right; exact Hmissing|reflexivity].
        - left. exact Hmissing.
        - right. exact Hmissing. }
      destruct (loader_exit single) as [code|] eqn:Hexit; [|congruence].
      destruct (Hsingle_exit code eq_refl) as [Hcode Htext].
      eexists code, (loader_text mesh ++ loader_text single), _.
      split; [exact Hcode|].
      split; [intros Hnil; apply app_eq_nil in Hnil; tauto|].
      split; [|split; [|reflexivity]]; cbn [scene cout calls];
        [rewrite app_assoc|]; reflexivity.
  - rewrite (initialize_without_vertex_shader load w q Hvert).
    eexists 1, error_file_access_text, _.
    split; [lia|]. split; [discriminate|].
    split; [|split; [|reflexivity]]; reflexivity.
Qed.

End ShaderFacts.


(** C4, as the code has it. The driver that [main] allocates uses the
    implicit stepper [rk1imp] with initial step 1e-6, absolute tolerance
    1e-6 and relative tolerance 0: the error control is purely absolute. *)
Theorem driver_configuration {D : Type} {num : Scalar D} :
  stepper (main_driver (D := D)) = gsl_odeiv2_step_rk1imp
  /\ implicit_stepper (stepper (main_driver (D := D))) = true
  /\ h (main_driver (D := D)) = slit 1e-6
  /\ epsabs (main_driver (D := D)) = slit 1e-6
  /\ epsrel (main_driver (D := D)) = slit 0
  /\ ~ mixed_error_control (main_driver (D := D)).
Proof.
  do 5 (split; [reflexivity|]).
  intros [_ Hrel]. apply Hrel. reflexivity.
Qed.

(* ================================================================== *)
(** * The model at work: runs on machine floats *)
(* ================================================================== *)

Section Runs.

Import IEEE Reference.

#[local] Open Scope string_scope.

#[local] Abbreviation demo_parameters :=
  (mk_parameters (D := float) (slit 0.2) (slit 2) (slit 20) (slit 5)).

(** The start of [main]'s loop. *)
#[local] Abbreviation start :=
  (mk_locals (D := float) main_driver (slit 0) (slit 0.5, slit 0) 1).

(** Three passes with input: shift pressed, then F pressed and released
    with the mouse moving, then nothing. *)
#[local] Abbreviation busy_frames :=
  [ mk_frame (D := float) (S := single) (slit 0.016) None false
      [Key GLFW_KEY_LEFT_SHIFT 50 GLFW_PRESS 1];
    mk_frame (slit 0.016) (Some (slit 60)) true
      [Key GLFW_KEY_F 41 GLFW_PRESS 1; MouseMove (slit 640) (slit 360);
       Key GLFW_KEY_F 41 GLFW_RELEASE 1];
    mk_frame (slit 0.016) None false [WindowSize 800 600] ].



(** C3 fails on the code. With a solver whose every call reports
    [GSL_FAILURE], the loop still makes both passes of a two-frame run
    and [main] returns 0. *)
Lemma integration_failure_is_not_fatal :
  let run := main (gsl := failing_solver) (demo_world true 2) process0 in
  (forall d t t1 y,
      (gsl_odeiv2_driver_apply (Gsl := failing_solver) d t t1 y).1.1.1
      = GSL_FAILURE)
  /\ GSL_FAILURE <> GSL_SUCCESS
  /\ match run with Ret code _ => code = 0 | Exit _ _ => False end
  /\ exit_status run = 0
  /\ count_occ string_dec (calls (final_state run)) "glfwPollEvents" = 2%nat.
Proof.
  cbv zeta. split; [reflexivity|]. split; [discriminate|].
  split; [vm_compute; reflexivity|]. split; vm_compute; reflexivity.
Qed.

Lemma integration_status_is_ignored_witness :
  main (gsl := with_status GSL_FAILURE backward_euler_solver)
    (mk_world "softbody" (fun _ => true) busy_frames) process0
  = main (gsl := backward_euler_solver)
      (mk_world "softbody" (fun _ => true) busy_frames) process0
  /\ (exists p',
        main (gsl := backward_euler_solver)
          (mk_world "softbody" (fun _ => true) busy_frames) process0
        = Ret 0 p')
  /\ (forall l p1, exists l' p2,
        animation_loop (gsl := backward_euler_solver) busy_frames l p1
        = Ret l' p2 /\
        ti l' = ti l + Z.of_nat (length busy_frames)).
Proof.
  apply (integration_status_is_ignored (gsl := backward_euler_solver)
           GSL_FAILURE
           (mk_world "softbody" (fun _ => true) busy_frames) process0).
  reflexivity.
Defined.

(** C4 fails on the code. The relative tolerance of the driver that
    [main] allocates is zero, so its error control is purely absolute. *)
Lemma driver_error_control_is_absolute :
  epsrel (main_driver (D := float)) = slit 0
  /\ epsabs (main_driver (D := float)) = slit 1e-6
  /\ ~ mixed_error_control (main_driver (D := float)).
Proof.
  split; [reflexivity|]. split; [reflexivity|].
  intros [_ Hrel]. apply Hrel. reflexivity.
Qed.

Lemma shift_F_toggles_once_witness :
  let p := final_state
             (keyboard_callback GLFW_KEY_LEFT_SHIFT 50 GLFW_PRESS 1 process0) in
  let p1 := final_state (keyboard_callback GLFW_KEY_F 41 GLFW_PRESS 1 p) in
  let p2 := final_state (keyboard_callback GLFW_KEY_F 41 GLFW_RELEASE 1 p1) in
  is_full_screen (window (scene p1)) = negb (is_full_screen (window (scene p)))
  /\ is_full_screen (window (scene p2)) = is_full_screen (window (scene p1))
  /\ is_full_screen (window (scene p2)) <> is_full_screen (window (scene p)).
Proof.
  apply (shift_F_toggles_once (cgp := ref_cgp) (methods := ref_scene)
           (final_state
              (keyboard_callback GLFW_KEY_LEFT_SHIFT 50 GLFW_PRESS 1 process0))
           41 1 41 1).
  - intros action kb. reflexivity.
  - intros sc. reflexivity.
  - intros sc. reflexivity.
  - intros win _. reflexivity.
  - intros win _. reflexivity.
  - reflexivity.
Defined.

(** The loader [strict_loader] reports the files it does not find. *)
Lemma strict_loader_reports : reports_missing_files strict_loader.
Proof.
  intros file_exist vertex fragment. unfold strict_loader.
  split.
  - intros Hmissing.
    destruct (file_exist vertex), (file_exist fragment); cbn;
      try discriminate; destruct Hmissing; discriminate.
  - intros code.
    destruct (file_exist vertex), (file_exist fragment); cbn;
      intros Hcode; try discriminate;
      injection Hcode as <-; (split; [lia|discriminate]).
Qed.


(** The run of the witness, evaluated: the curve shader's loader names
    the missing file and the process ends with code 1 after the two
    loader calls and the texture call between them. *)
Example missing_fragment_shader_run :
  let run := main_with (gsl := backward_euler_solver) strict_loader
               (mk_world "softbody"
                  (all_but "../shaders/single_color/frag.glsl")
                  (repeat quiet_frame 3))
               process0 in
  exit_status run = 1
  /\ match run with Ret _ _ => False | Exit _ _ => True end
  /\ List.last (cout (final_state run)) EmptyString
     = "Error: cannot access the shader file ../shaders/single_color/frag.glsl"
       ++ endl
  /\ count_occ string_dec (calls (final_state run)) "glfwPollEvents" = 0%nat.
Proof. cbv zeta. repeat split; vm_compute; reflexivity. Qed.

(** The check in [initialize_default_shaders] is on one file only: with
    another of the four missing and a loader that says nothing, the
    process goes on into the loop.  What happens for those files is the
    loader's doing. *)
Example unchecked_files_are_left_to_the_loader :
  let run := main_with (gsl := backward_euler_solver) quiet_loader
               (mk_world "softbody" (all_but "../shaders/mesh/frag.glsl")
                  (repeat quiet_frame 2))
               process0 in
  ~ reports_missing_files quiet_loader
  /\ match run with Ret code _ => code = 0 | Exit _ _ => False end
  /\ count_occ string_dec (calls (final_state run)) "glfwPollEvents" = 2%nat.
Proof.
  cbv zeta. split.
  - intros Hload.
    destruct (Hload (fun _ => false) EmptyString EmptyString)
      as [Hmissing _].
    apply Hmissing; [left|]; reflexivity.
  - split; vm_compute; reflexivity.
Qed.

Lemma translation_accumulates_witness :
  exists l' p',
    animation_loop (gsl := backward_euler_solver) busy_frames start process0
    = Ret l' p' /\
    let ds :=
      map displacement_components
        (solver_states (gsl := backward_euler_solver)
           (length busy_frames) start) in
    vx (p2_translation (scene p'))
    = fold_left sadd (map (fun dsp => dsp.1.1) ds)
        (vx (p2_translation (scene process0)))
    /\ vy (p2_translation (scene p'))
       = fold_left sadd (map (fun dsp => dsp.1.2) ds)
           (vy (p2_translation (scene process0)))
    /\ vz (p2_translation (scene p'))
       = fold_left sadd (map (fun dsp => dsp.2) ds)
           (vz (p2_translation (scene process0)))
    /\ ((forall u v w : single, (u + v + w = u + (v + w))%num) ->
        (forall u : single, (u + slit 0 = u)%num) ->
        p2_translation (scene p')
        = moved_by (p2_translation (scene process0))
            (fold_right sadd (slit 0) (map (fun dsp => dsp.1.1) ds),
             fold_right sadd (slit 0) (map (fun dsp => dsp.1.2) ds),
             fold_right sadd (slit 0) (map (fun dsp => dsp.2) ds))).
Proof.
  apply (translation_accumulates (gsl := backward_euler_solver)
           busy_frames start process0);
    intros sc; reflexivity.
Defined.

(** The literals of [main] on machine doubles are the doubles nearest to
    the decimal fractions written in the source. *)
Example literals_are_nearest_doubles :
  slit (T := float) 0.2 = 0x1.999999999999ap-3%float
  /\ slit (T := float) 0.5 = 0x1p-1%float
  /\ slit (T := float) 1e-6 = 0x1.0c6f7a0b5ed8dp-20%float
  /\ slit (T := float) 20 = 0x1.4p+4%float.
Proof. repeat split. Qed.

(** The handler of the scene sees the shift key already pressed when it
    is called for the event that presses it. *)
Example handler_sees_shift_pressed :
  let p := final_state
             (keyboard_callback GLFW_KEY_LEFT_SHIFT 50 GLFW_PRESS 1 process0) in
  keyboard (inputs scene0) = false
  /\ map keyboard (members (scene p)) = [true].
Proof. split; reflexivity. Qed.

(** At the initial state the object is below the anchor: the direction is
    exactly (0, 0, -1) in single precision. *)
Example direction_at_start :
  unit_vector (S := single)
    (mk_vec3 (slit 0) (slit 0) (slit 3))
    (mk_vec3 (slit 0) (slit 0) (narrow (slit (T := float) 0.5)))
  = mk_vec3 (slit 0) (slit 0) (sopp (slit 1)).
Proof. vm_compute. reflexivity. Qed.

(** When the position component is 3 the difference is the zero vector
    and the division yields no direction: every component is NaN. *)
Example direction_at_anchor :
  unit_vector (S := single)
    (mk_vec3 (slit 0) (slit 0) (slit 3))
    (mk_vec3 (slit 0) (slit 0) (narrow (slit (T := float) 3)))
  = mk_vec3 S754_nan S754_nan S754_nan.
Proof. vm_compute. reflexivity. Qed.

(** The backward Euler stand-in moves the state toward the rest position
    F/k = 2.5; after two hundred passes the position is within 0.01 of
    it. *)
Example stand_in_settles :
  let y := List.last
             (solver_states (gsl := backward_euler_solver) 200 start)
             (slit 0, slit 0) in
  (PrimFloat.ltb (slit 2.49) (fst y) && PrimFloat.ltb (fst y) (slit 2.51))
  = true.
Proof. vm_compute. reflexivity. Qed.

End Runs.

(** Over the reals [unit_vector] has length one whenever the two points
    differ. *)
Lemma unit_vector_norm (a b : vec3 R) :
  a <> b -> norm (unit_vector a b) = 1%R.
Proof.
  intros Hab. destruct a as [ax ay az], b as [bx by_ bz].
  unfold unit_vector, norm, vec3_div, vec3_sub. cbn.
  set (s := ((bx - ax) * (bx - ax) + (by_ - ay) * (by_ - ay)
             + (bz - az) * (bz - az))%R).
  assert (Hs : (0 < s)%R).
  { pose proof (Rle_0_sqr (bx - ax)) as Hx2.
    pose proof (Rle_0_sqr (by_ - ay)) as Hy2.
    pose proof (Rle_0_sqr (bz - az)) as Hz2.
    assert (Hpos : forall u : R, u <> 0%R -> (0 < Rsqr u)%R)
      by (intros u Hu; apply Rsqr_pos_lt; exact Hu).
    unfold Rsqr in *. unfold s.
    destruct (Req_dec bx ax) as [Ex|Hx];
      [|specialize (Hpos (bx - ax)%R ltac:(lra)); lra].
    destruct (Req_dec by_ ay) as [Ey|Hy];
      [|specialize (Hpos (by_ - ay)%R ltac:(lra)); lra].
    destruct (Req_dec bz az) as [Ez|Hz];
      [|specialize (Hpos (bz - az)%R ltac:(lra)); lra].
    contradiction Hab. subst. reflexivity. }
  assert (Hn : (0 < R_sqrt.sqrt s)%R) by (apply sqrt_lt_R0; exact Hs).
  assert (Hsq : (R_sqrt.sqrt s * R_sqrt.sqrt s = s)%R)
    by (apply sqrt_sqrt; lra).
  set (n := R_sqrt.sqrt s) in *.
  replace ((bx - ax) / n * ((bx - ax) / n)
           + (by_ - ay) / n * ((by_ - ay) / n)
           + (bz - az) / n * ((bz - az) / n))%R
    with (s / (n * n))%R by (unfold s; field; lra).
  rewrite Hsq. replace (s / s)%R with 1%R by (field; lra).
  apply sqrt_1.
Qed.

(* ================================================================== *)
(** * Further properties of the ODE model, read over the reals *)
(* ================================================================== *)

(** X1. The state derivative vanishes at the rest state (F/k, 0) and nowhere
    else: position F/k, velocity 0 is the only equilibrium of the system
    that [eqdiff] describes.  Mass and stiffness must not be zero. *)
Theorem eqdiff_equilibrium (q : parameters R) (s y0 y1 : R) :
  M q <> 0%R ->
  k q <> 0%R ->
  (derivative_component q 0 s [y0; y1] = 0%R /\
   derivative_component q 1 s [y0; y1] = 0%R)
  <-> (y0 = (F q / k q)%R /\ y1 = 0%R).
Proof.
  intros HM Hk. rewrite !derivative_component_value. cbn [nth].
  split.
  - intros [H0 H1]. subst y1. split; [|reflexivity].
    unfold Rdiv in H1. apply Rmult_integral in H1.
    destruct H1 as [H1|H1]; [|exfalso; exact (Rinv_neq_0_compat _ HM H1)].
    assert (Hy : (k q * y0 = F q)%R) by lra.
    rewrite <- Hy. field. exact Hk.
  - intros [-> ->]. split; [reflexivity|]. field. split; assumption.
Qed.

Lemma eqdiff_equilibrium_witness :
  (derivative_component (mk_parameters (slit 0.2) 2%R 20%R 5%R) 0 7%R
     [(5 / 2)%R; 0%R] = 0%R /\
   derivative_component (mk_parameters (slit 0.2) 2%R 20%R 5%R) 1 7%R
     [(5 / 2)%R; 0%R] = 0%R)
  <-> ((5 / 2)%R = (5 / 2)%R /\ 0%R = 0%R).
Proof.
  apply (eqdiff_equilibrium (mk_parameters (slit 0.2) 2%R 20%R 5%R) 7%R
           (5 / 2)%R 0%R); simpl; lra.
Defined.

(** X2. Along the vector field of [eqdiff] the energy
    M v^2 / 2 + k x^2 / 2 - F x changes at the rate - c v^2: with a
    damping that is not negative the system never gains energy. *)
Theorem eqdiff_dissipates (q : parameters R) (s y0 y1 : R) :
  M q <> 0%R ->
  let f0 := derivative_component q 0 s [y0; y1] in
  let f1 := derivative_component q 1 s [y0; y1] in
  (M q * y1 * f1 + (k q * y0 - F q) * f0 = - (c q * (y1 * y1)))%R
  /\ ((0 <= c q)%R ->
      (M q * y1 * f1 + (k q * y0 - F q) * f0 <= 0)%R).
Proof.
  intros HM f0 f1. unfold f0, f1. rewrite !derivative_component_value.
  cbn [nth].
  assert (E : (M q * y1 * ((F q - c q * y1 - k q * y0) / M q)
               + (k q * y0 - F q) * y1 = - (c q * (y1 * y1)))%R)
    by (field; exact HM).
  split; [exact E|]. intros Hc. rewrite E.
  pose proof (Rle_0_sqr y1) as Hsq. unfold Rsqr in Hsq. nra.
Qed.

Lemma eqdiff_dissipates_witness :
  let q := mk_parameters (slit 0.2) 2%R 20%R 5%R in
  let f0 := derivative_component q 0 0%R [1%R; 3%R] in
  let f1 := derivative_component q 1 0%R [1%R; 3%R] in
  (M q * 3 * f1 + (k q * 1 - F q) * f0 = - (c q * (3 * 3)))%R
  /\ ((0 <= c q)%R ->
      (M q * 3 * f1 + (k q * 1 - F q) * f0 <= 0)%R).
Proof.
  apply (eqdiff_dissipates (mk_parameters (slit 0.2) 2%R 20%R 5%R) 0%R
           1%R 3%R).
  simpl. lra.
Defined.

(** X3. [eqdiff] is affine in the state, with the matrix that [jacobian]
    writes as its linear part: moving the state by (d0, d1) moves
    component i of the derivative by J[i][0] d0 + J[i][1] d1, exactly and
    for steps of any size. *)
Theorem eqdiff_affine_in_state (q : parameters R) (i : nat)
  (s s' y0 y1 d0 d1 : R) (y' : list R) :
  M q <> 0%R ->
  derivative_component q i s [(y0 + d0)%R; (y1 + d1)%R]
  = (derivative_component q i s [y0; y1]
     + jacobian_entry q s' y' i 0 * d0
     + jacobian_entry q s' y' i 1 * d1)%R.
Proof.
  intros HM. rewrite !derivative_component_value, !jacobian_entry_value.
  destruct i as [|[|i]]; cbn.
  - lra.
  - field. exact HM.
  - destruct i; cbn; lra.
Qed.

Lemma eqdiff_affine_in_state_witness :
  let q := mk_parameters (slit 0.2) 2%R 20%R 5%R in
  derivative_component q 1 0%R [(1 + 10)%R; (3 + 100)%R]
  = (derivative_component q 1 0%R [1%R; 3%R]
     + jacobian_entry q 9%R [] 1 0 * 10
     + jacobian_entry q 9%R [] 1 1 * 100)%R.
Proof.
  apply (eqdiff_affine_in_state (mk_parameters (slit 0.2) 2%R 20%R 5%R)
           1 0%R 9%R 1%R 3%R 10%R 100%R []).
  simpl. lra.
Defined.

(** X4. For positive damping, stiffness and mass the matrix that [jacobian]
    writes has trace - c/M < 0 and determinant k/M > 0: both of its
    eigenvalues have a negative real part, at every state and time. *)
Theorem jacobian_is_stable (q : parameters R) (s : R) (y : list R) :
  (0 < c q)%R ->
  (0 < k q)%R ->
  (0 < M q)%R ->
  let J := jacobian_entry q s y in
  (J 0%nat 0%nat + J 1%nat 1%nat = - c q / M q)%R
  /\ (J 0%nat 0%nat * J 1%nat 1%nat - J 0%nat 1%nat * J 1%nat 0%nat
      = k q / M q)%R
  /\ (J 0%nat 0%nat + J 1%nat 1%nat < 0)%R
  /\ (0 < J 0%nat 0%nat * J 1%nat 1%nat - J 0%nat 1%nat * J 1%nat 0%nat)%R.
Proof.
  intros Hc Hk HM J. unfold J. rewrite !jacobian_entry_value. cbn.
  assert (HM' : M q <> 0%R) by lra.
  assert (Htr : (0 + - c q / M q = - c q / M q)%R) by lra.
  assert (Hdet : (0 * (- c q / M q) - 1 * (- k q / M q) = k q / M q)%R)
    by (field; exact HM').
  split; [exact Htr|]. split; [exact Hdet|].
  rewrite Htr, Hdet. split.
  - unfold Rdiv. apply Ropp_lt_cancel. rewrite Ropp_0.
    replace (- (- c q * / M q))%R with (c q * / M q)%R by lra.
    apply Rmult_lt_0_compat; [exact Hc|apply Rinv_0_lt_compat; exact HM].
  - unfold Rdiv.
    apply Rmult_lt_0_compat; [exact Hk|apply Rinv_0_lt_compat; exact HM].
Qed.

Lemma jacobian_is_stable_witness :
  let J := jacobian_entry (mk_parameters (1 / 5)%R 2%R 20%R 5%R) 0%R [] in
  (J 0%nat 0%nat + J 1%nat 1%nat = - (1 / 5) / 20)%R
  /\ (J 0%nat 0%nat * J 1%nat 1%nat - J 0%nat 1%nat * J 1%nat 0%nat
      = 2 / 20)%R
  /\ (J 0%nat 0%nat + J 1%nat 1%nat < 0)%R
  /\ (0 < J 0%nat 0%nat * J 1%nat 1%nat - J 0%nat 1%nat * J 1%nat 0%nat)%R.
Proof.
  apply (jacobian_is_stable (mk_parameters (1 / 5)%R 2%R 20%R 5%R) 0%R []);
    simpl; lra.
Defined.

(* ================================================================== *)
(** * Further properties of the physics lines *)
(* ================================================================== *)

(** X5. Read over the reals, the displacement that the physics lines apply is
    vertical and of length |y[1]|: (0, 0, -y[1]) while the position y[0]
    is below the anchor height 3, and (0, 0, y[1]) while it is above. *)
Theorem displacement_is_vertical (y0 y1 : R) :
  y0 <> 3%R ->
  displacement_of (D := R) (S := R) (y0, y1)
  = mk_vec3 0%R 0%R (if Rlt_dec y0 3 then (- y1)%R else y1).
Proof.
  intros Hy.
  unfold displacement_of, unit_vector, vec3_mul, vec3_div, vec3_sub, norm.
  cbn. unfold Q2R. cbn.
  replace (0 * / 1 - 0 * / 1)%R with 0%R by lra.
  replace (y0 - 3 * / 1)%R with (y0 - 3)%R by lra.
  replace (0 * 0 + 0 * 0 + (y0 - 3) * (y0 - 3))%R with (Rsqr (y0 - 3))
    by (unfold Rsqr; lra).
  rewrite sqrt_Rsqr_abs.
  assert (Habs : Rabs (y0 - 3) <> 0%R) by (apply Rabs_no_R0; lra).
  f_equal.
  - unfold Rdiv. rewrite !Rmult_0_l. reflexivity.
  - unfold Rdiv. rewrite !Rmult_0_l. reflexivity.
  - destruct (Rlt_dec y0 3) as [Hlt|Hge].
    + rewrite Rabs_left by lra. field. lra.
    + rewrite Rabs_right by lra. field. lra.
Qed.

Lemma displacement_is_vertical_witness :
  displacement_of (D := R) (S := R) ((1 / 2)%R, 4%R)
  = mk_vec3 0%R 0%R (if Rlt_dec (1 / 2) 3 then (- 4)%R else 4%R).
Proof.
  apply (displacement_is_vertical (1 / 2)%R 4%R). lra.
Defined.

Section NotANumber.

Import IEEE.

Context {cgp : Cgp float single} {Members : Type}.
Context {methods : SceneMethods float single Members} {gsl : Gsl float}.

(** In single precision a sum or a product with a NaN is a NaN. *)
Lemma single_add_nan_l (x : single) : sadd S754_nan x = S754_nan.
Proof. reflexivity. Qed.

Lemma single_add_nan_r (x : single) : sadd x S754_nan = S754_nan.
Proof. destruct x; reflexivity. Qed.

Lemma single_mul_nan_l (x : single) : smul S754_nan x = S754_nan.
Proof. reflexivity. Qed.

Lemma fold_add_nan (ds : list (vec3 single)) (tr : vec3 single) :
  (vx tr = S754_nan -> vx (fold_left vec3_add ds tr) = S754_nan)
  /\ (vy tr = S754_nan -> vy (fold_left vec3_add ds tr) = S754_nan)
  /\ (vz tr = S754_nan -> vz (fold_left vec3_add ds tr) = S754_nan).
Proof.
  revert tr. induction ds as [|d0 ds IH]; intros tr; cbn [fold_left].
  - auto.
  - destruct (IH (vec3_add tr d0)) as (Hx & Hy & Hz).
    repeat split; intros E; [apply Hx|apply Hy|apply Hz];
      cbn [vec3_add vx vy vz]; rewrite E; reflexivity.
Qed.

(** X6. When the position that the solver returns, converted to single
    precision, is exactly the anchor height 3, the direction is 0/0: the
    physics lines turn all three components of the translation into NaN,
    whatever the velocity and the translation before. *)
Theorem physics_at_anchor_gives_nan (l : locals)
  (p : process (scene_structure Members)) :
  narrow (fst (y (next_locals l))) = slit (T := single) 3 ->
  p2_translation (scene (final_state (physics l p)))
  = mk_vec3 S754_nan S754_nan S754_nan.
Proof.
  intros Hy. rewrite physics_spec.
  cbn [final_state scene p2_translation with_line with_p2_translation].
  unfold displacement_of. rewrite Hy.
  replace (unit_vector (S := single) (mk_vec3 (slit 0) (slit 0) (slit 3))
             (mk_vec3 (slit 0) (slit 0) (slit 3)))
    with (mk_vec3 S754_nan S754_nan S754_nan) by (vm_compute; reflexivity).
  unfold vec3_mul, vec3_add. cbn [vx vy vz].
  rewrite !single_mul_nan_l, !single_add_nan_r. reflexivity.
Qed.

(** X7. A component of the translation that is NaN stays NaN through any
    number of passes of the loop.  The methods of the scene called on the
    way must leave the translation alone. *)
Theorem nan_translation_persists (frs : list frame) (l : locals)
  (p : process (scene_structure Members)) :
  (forall sc, p2_translation (display_gui sc) = p2_translation sc) ->
  (forall sc, p2_translation (idle_frame sc) = p2_translation sc) ->
  (forall sc, p2_translation (display_frame sc) = p2_translation sc) ->
  (forall sc, p2_translation (mouse_move_event sc) = p2_translation sc) ->
  (forall sc, p2_translation (mouse_click_event sc) = p2_translation sc) ->
  (forall sc, p2_translation (keyboard_event sc) = p2_translation sc) ->
  let after := p2_translation (scene (final_state (animation_loop frs l p))) in
  (vx (p2_translation (scene p)) = S754_nan -> vx after = S754_nan)
  /\ (vy (p2_translation (scene p)) = S754_nan -> vy after = S754_nan)
  /\ (vz (p2_translation (scene p)) = S754_nan -> vz after = S754_nan).
Proof.
  intros H1 H2 H3 H4 H5 H6 after.
  destruct (loop_translation H1 H2 H3 H4 H5 H6 frs l p)
    as (l' & p' & Hloop & Htr).
  unfold after. rewrite Hloop. cbn [final_state]. rewrite Htr.
  apply fold_add_nan.
Qed.

End NotANumber.

(* ================================================================== *)
(** * Further properties of the input callbacks *)
(* ================================================================== *)

Section KeyboardFacts.

Context {D S : Type} {cgp : Cgp D S}.
Context {Members : Type} {methods : SceneMethods D S Members}.

#[local] Abbreviation proc := (process (scene_structure Members)).

(** X8. The display-mode flag changes on no other event than a key-down of F
    received while the shift state tracked in the scene, as the handler
    leaves it, is set: not on another key, not on a key-up or a repeat
    event of F, not on F without shift.  The handler of the scene must
    leave the flag alone. *)
Theorem display_mode_changes_only_on_shift_F
  (key scancode action mods : Z) (p : proc) :
  (forall sc : scene_structure Members,
      is_full_screen (window (keyboard_event sc))
      = is_full_screen (window sc)) ->
  is_full_screen (window (scene (final_state
    (keyboard_callback key scancode action mods p))))
  <> is_full_screen (window (scene p)) ->
  key = GLFW_KEY_F /\ action = GLFW_PRESS /\
  shift (keyboard (inputs (keyboard_event
    (with_inputs (with_keyboard (update_from_glfw_key key action))
       (scene p))))) = true.
Proof.
  intros Hmode.
  unfold keyboard_callback, full_screen_shortcut, camera_debug_shortcut.
  unfold mbind, prog_bind, modify_scene, get_scene, when. cbn.
  set (seen := keyboard_event _).
  destruct ((key =? GLFW_KEY_F) && (action =? GLFW_PRESS)
            && shift (keyboard (inputs seen))) eqn:E.
  - intros _. apply andb_prop in E as [E Hs]. apply andb_prop in E as [Hk Ha].
    apply Z.eqb_eq in Hk, Ha. auto.
  - cbn. intros Hneq. exfalso. apply Hneq.
    assert (Hseen : is_full_screen (window seen)
                    = is_full_screen (window (scene p)))
      by (unfold seen; rewrite Hmode; reflexivity).
    destruct ((key =? GLFW_KEY_V) && (action =? GLFW_PRESS)
              && shift (keyboard (inputs seen))); cbn; exact Hseen.
Qed.

(** F pressed while shift is held leaves the tracked shift state set. *)
Lemma key_down_keeps_shift (scancode mods : Z) (p : proc) :
  (forall action kb,
      shift (update_from_glfw_key GLFW_KEY_F action kb) = shift kb) ->
  (forall sc : scene_structure Members,
      shift (keyboard (inputs (keyboard_event sc)))
      = shift (keyboard (inputs sc))) ->
  shift (keyboard (inputs (scene (final_state
    (keyboard_callback GLFW_KEY_F scancode GLFW_PRESS mods p)))))
  = shift (keyboard (inputs (scene p))).
Proof.
  intros HF Hs.
  pose proof (after_handler_shift HF Hs GLFW_PRESS p) as Hseen.
  unfold keyboard_callback, full_screen_shortcut, camera_debug_shortcut.
  unfold mbind, prog_bind, modify_scene, get_scene, when. cbn.
  set (seen := keyboard_event _) in *.
  destruct (shift (keyboard (inputs seen))) eqn:E; cbn; [|congruence].
  destruct (negb (is_full_screen (window seen))); cbn; congruence.
Qed.

(** X9. The callback keeps no record of a key being down: a second key-down of
    F, with no key-up in between, toggles the display-mode flag a second
    time and so puts it back.  (A key held down reaches the callback as
    repeat events, which do not toggle.)  The premises are those of the
    single toggle. *)
Theorem second_key_down_toggles_back (p : proc) (sc1 mods1 sc2 mods2 : Z) :
  (forall action kb,
      shift (update_from_glfw_key GLFW_KEY_F action kb) = shift kb) ->
  (forall sc : scene_structure Members,
      shift (keyboard (inputs (keyboard_event sc)))
      = shift (keyboard (inputs sc))) ->
  (forall sc : scene_structure Members,
      is_full_screen (window (keyboard_event sc))
      = is_full_screen (window sc)) ->
  (forall win, is_full_screen win = true ->
               is_full_screen (set_full_screen win) = true) ->
  (forall win, is_full_screen win = false ->
               is_full_screen (set_windowed_screen win) = false) ->
  shift (keyboard (inputs (scene p))) = true ->
  let p1 := final_state (keyboard_callback GLFW_KEY_F sc1 GLFW_PRESS mods1 p) in
  let p2 := final_state (keyboard_callback GLFW_KEY_F sc2 GLFW_PRESS mods2 p1) in
  is_full_screen (window (scene p2)) = is_full_screen (window (scene p))
  /\ is_full_screen (window (scene p1)) <> is_full_screen (window (scene p)).
Proof.
  intros HF Hs Hm Hfull Hwin Hshift p1 p2.
  assert (E1 : is_full_screen (window (scene p1))
               = negb (is_full_screen (window (scene p))))
    by (apply key_down_flips; assumption).
  assert (Hshift1 : shift (keyboard (inputs (scene p1))) = true)
    by (unfold p1; rewrite key_down_keeps_shift; assumption).
  assert (E2 : is_full_screen (window (scene p2))
               = negb (is_full_screen (window (scene p1))))
    by (apply key_down_flips; assumption).
  rewrite E2, E1.
  destruct (is_full_screen (window (scene p))); split; cbn; congruence.
Qed.

(** X11. A burst of resize events leaves the window at the size given by the
    last of them; nothing else in the process changes, and no handler of
    the scene is called. *)
Theorem resize_events_last_wins (sizes : list (Z * Z)) (p : proc) :
  dispatch_all
    (map (fun wh : Z * Z => WindowSize (D := D) wh.1 wh.2) sizes) p
  = Ret tt
      (mk_process
         (match last sizes with
          | Some wh => with_window (set_size wh.1 wh.2) (scene p)
          | None => scene p
          end)
         (cout p) (calls p)).
Proof.
  revert p. induction sizes as [|[w0 h0] sizes IH]; intros p.
  - destruct p. reflexivity.
  - cbn [map dispatch_all dispatch]. unfold mbind, prog_bind.
    unfold window_size_callback at 1. unfold modify_scene at 1.
    rewrite IH. cbn [scene cout calls].
    destruct sizes as [|wh sizes]; [reflexivity|].
    rewrite !last_cons_cons.
    destruct (last (wh :: sizes)) as [wh'|] eqn:E; [reflexivity|].
    apply last_None in E. discriminate.
Qed.

End KeyboardFacts.

(* ================================================================== *)
(** * Further properties of the loop and of [main] *)
(* ================================================================== *)

Section LoopAndMainFacts.

Context {D S : Type} {numD : Scalar D} {numS : Scalar S} {conv : Narrow D S}.
Context {cgp : Cgp D S} {Members : Type} {methods : SceneMethods D S Members}.
Context {gsl : Gsl D}.

#[local] Abbreviation scene_t := (scene_structure Members).
#[local] Abbreviation proc := (process scene_t).

Lemma ti_after_passes (n : nat) (l : locals) :
  ti (Nat.iter n next_locals l) = ti l + Z.of_nat n.
Proof.
  induction n as [|n IH]; [cbn; lia|].
  rewrite Nat.iter_succ. unfold next_locals at 1.
  destruct (gsl_odeiv2_driver_apply _ _ _ _) as [[[status d'] t'] y'].
  cbn [ti]. rewrite IH. lia.
Qed.

(** X12. The integration is fed by nothing but the count of passes: two
    runs of the loop that start from the same locals and make the same
    number of passes end with the same locals, whatever the events, the
    timing and the state of the scene in each; the driver, time and state
    that the solver returns in one pass are what it is given in the next,
    and the target time grows by one a pass.  The count is one that the
    [int] counter of the source can hold. *)
Theorem integration_depends_on_pass_count_only (frs frs2 : list frame)
  (l : locals) (p p2 : proc) :
  length frs2 = length frs ->
  -2147483648 <= ti l ->
  ti l + Z.of_nat (length frs) <= 2147483647 ->
  exists (l' : locals) (q q2 : proc),
    animation_loop frs l p = Ret l' q
    /\ animation_loop frs2 l p2 = Ret l' q2
    /\ l' = Nat.iter (length frs) next_locals l
    /\ ti l' = ti l + Z.of_nat (length frs)
    /\ -2147483648 <= ti l' <= 2147483647.
Proof.
  intros Hlength Hlow Hhigh.
  assert (Hloop : forall (fs : list frame) (l0 : locals) (p0 : proc),
             exists p', animation_loop fs l0 p0
                        = Ret (Nat.iter (length fs) next_locals l0) p').
  { induction fs as [|fr fs IH]; intros l0 p0; cbn [animation_loop length].
    - exists p0. reflexivity.
    - assert (Hpass : returns (iteration fr l0) p0
                        (fun l' _ => l' = next_locals l0)).
      { eapply returns_weaken;
          [apply (iteration_spec (fun _ _ : scene_t => True)); auto|].
        intros l' p' [-> _]. reflexivity. }
      destruct Hpass as (l1 & p1 & Hit & ->).
      destruct (IH (next_locals l0) p1) as (p' & Hrest).
      exists p'. unfold mbind, prog_bind. rewrite Hit, Hrest.
      rewrite Nat.iter_succ_r. reflexivity. }
  destruct (Hloop frs l p) as (q & Hq).
  destruct (Hloop frs2 l p2) as (q2 & Hq2).
  rewrite Hlength in Hq2.
  exists (Nat.iter (length frs) next_locals l), q, q2.
  split; [exact Hq|]. split; [exact Hq2|]. split; [reflexivity|].
  rewrite ti_after_passes. split; [reflexivity|lia].
Qed.

(** X13. After each pass of the loop the segment that was uploaded for
    [scene.line] runs from the point (0,0,2) to the translation of the
    tracked object as updated in that pass, not to the one before.  The
    methods of the scene must leave the translation and the segment
    alone. *)
Theorem segment_follows_object (fr : frame) (l : locals) (p : proc) :
  (forall sc : scene_t,
      p2_translation (display_gui sc) = p2_translation sc
      /\ line (display_gui sc) = line sc) ->
  (forall sc : scene_t,
      p2_translation (idle_frame sc) = p2_translation sc
      /\ line (idle_frame sc) = line sc) ->
  (forall sc : scene_t,
      p2_translation (display_frame sc) = p2_translation sc
      /\ line (display_frame sc) = line sc) ->
  (forall sc : scene_t,
      p2_translation (mouse_move_event sc) = p2_translation sc
      /\ line (mouse_move_event sc) = line sc) ->
  (forall sc : scene_t,
      p2_translation (mouse_click_event sc) = p2_translation sc
      /\ line (mouse_click_event sc) = line sc) ->
  (forall sc : scene_t,
      p2_translation (keyboard_event sc) = p2_translation sc
      /\ line (keyboard_event sc) = line sc) ->
  exists l' p',
    iteration fr l p = Ret l' p'
    /\ line (scene p')
       = Some (mk_vec3 (slit 0) (slit 0) (slit 2), p2_translation (scene p'))
    /\ p2_translation (scene p')
       = vec3_add (p2_translation (scene p)) (displacement_of (y l')).
Proof.
  intros Hgui Hidle Hdisplay Hmove Hclick Hkey.
  set (Rs := fun a b : scene_t =>
               p2_translation b = p2_translation a /\ line b = line a).
  assert (Hrefl : forall sc, Rs sc sc) by (intros sc; split; reflexivity).
  assert (Htrans : forall a b c, Rs a b -> Rs b c -> Rs a c)
    by (intros a b c [H1 H2] [H3 H4]; split; congruence).
  assert (Hwin : forall f sc, Rs sc (with_window f sc))
    by (intros f sc; split; reflexivity).
  assert (Hinp : forall f sc, Rs sc (with_inputs f sc))
    by (intros f sc; split; reflexivity).
  assert (Hcam : forall f sc, Rs sc (with_camera_projection f sc))
    by (intros f sc; split; reflexivity).
  assert (Henv : forall f sc, Rs sc (with_environment f sc))
    by (intros f sc; split; reflexivity).
  destruct (frame_setup_keeps Rs Hrefl Htrans Hinp Hcam Henv fr p)
    as (u1 & p1 & Hsetup & Htr1 & _).
  destruct (frame_finish_keeps Rs Hrefl Htrans Hwin Hinp Hmove Hclick Hkey
              Hgui Hidle Hdisplay fr
              (final_state (physics l p1)))
    as (u2 & p2 & Hfinish & Htr2 & Hline2).
  rewrite physics_spec in Hfinish, Htr2, Hline2.
  cbn [final_state scene] in Hfinish, Htr2, Hline2.
  eexists _, p2. split; [|split].
  - unfold iteration, mbind, prog_bind.
    rewrite Hsetup, physics_spec, Hfinish. reflexivity.
  - rewrite Hline2, Htr2. reflexivity.
  - rewrite Htr2. cbn. rewrite Htr1. unfold next_locals.
    destruct (gsl_odeiv2_driver_apply _ _ _ _) as [[[status d'] t'] y'].
    reflexivity.
Qed.

(** X16. A run that ends by the window being closed releases its resources in
    one order: the last four library calls are the ImGui cleanup, the
    destruction of the window, [glfwTerminate] and the release of the
    solver's driver, and the last text written is the line that reports
    the end of the loop. *)
Theorem graceful_shutdown_order (w : world) (p : proc) :
  check_file_exist w "../shaders/mesh/vert.glsl" = true ->
  exists p' earlier_calls earlier_text,
    main w p = Ret 0 p'
    /\ calls p'
       = earlier_calls ++
         ["cgp::imgui_cleanup"; "glfwDestroyWindow"; "glfwTerminate";
          "gsl_odeiv2_driver_free"]%string
    /\ cout p'
       = earlier_text ++ [(endl ++ "Animation loop stopped" ++ endl)%string].
Proof.
  intros Hfile.
  assert (H : returns (main w) p (fun code p' =>
            code = 0 /\
            exists earlier_calls earlier_text,
              calls p'
              = earlier_calls ++
                ["cgp::imgui_cleanup"; "glfwDestroyWindow"; "glfwTerminate";
                 "gsl_odeiv2_driver_free"]%string
              /\ cout p'
                 = earlier_text
                   ++ [(endl ++ "Animation loop stopped" ++ endl)%string])).
  { unfold main. run. rewrite Hfile. cbn [negb]. run.
    eapply returns_weaken; [apply animation_loop_returns|].
    intros l' p2 _. cbv beta. run. split; [reflexivity|].
    exists (calls p2), (cout p2). rewrite <- !app_assoc. split; reflexivity. }
  destruct H as (code & p' & Hmain & -> & ec & et & Hc & Ht).
  exists p', ec, et. auto.
Qed.

End LoopAndMainFacts.

(* ================================================================== *)
(** * The further properties at work *)
(* ================================================================== *)

Section MoreRuns.

Import IEEE Reference.

#[local] Open Scope string_scope.

(** The scene with shift held, and the scene with a translation that is
    NaN in its third component. *)
#[local] Abbreviation shift_held :=
  (final_state
     (keyboard_callback GLFW_KEY_LEFT_SHIFT 50 GLFW_PRESS 1 process0)).

#[local] Abbreviation lost :=
  (mk_process
     (with_p2_translation
        (fun _ => mk_vec3 (slit 0) (slit 0) S754_nan) scene0) [] []).

#[local] Abbreviation start :=
  (mk_locals (D := float) main_driver (slit 0) (slit 0.5, slit 0) 1).

#[local] Abbreviation two_frames :=
  [ mk_frame (D := float) (S := single) (slit 0.016) None false
      [Key GLFW_KEY_LEFT_SHIFT 50 GLFW_PRESS 1; WindowSize 800 600];
    mk_frame (slit 0.016) (Some (slit 60)) true
      [Key GLFW_KEY_V 47 GLFW_PRESS 1; MouseClick 0 GLFW_PRESS 0] ].

Lemma physics_at_anchor_gives_nan_witness :
  p2_translation (scene (final_state
    (physics (gsl := failing_solver)
       (mk_locals main_driver (slit 0) (slit 3, slit 1) 1) process0)))
  = mk_vec3 S754_nan S754_nan S754_nan.
Proof.
  apply (physics_at_anchor_gives_nan (gsl := failing_solver)
           (mk_locals main_driver (slit 0) (slit 3, slit 1) 1) process0).
  vm_compute. reflexivity.
Defined.

Lemma nan_translation_persists_witness :
  let after :=
    p2_translation (scene (final_state
      (animation_loop (gsl := backward_euler_solver) two_frames start lost))) in
  (vx (p2_translation (scene lost)) = S754_nan -> vx after = S754_nan)
  /\ (vy (p2_translation (scene lost)) = S754_nan -> vy after = S754_nan)
  /\ (vz (p2_translation (scene lost)) = S754_nan -> vz after = S754_nan).
Proof.
  apply (nan_translation_persists (gsl := backward_euler_solver)
           two_frames start lost);
    intros sc; reflexivity.
Defined.

Lemma display_mode_changes_only_on_shift_F_witness :
  GLFW_KEY_F = GLFW_KEY_F /\ GLFW_PRESS = GLFW_PRESS /\
  shift (keyboard (inputs (keyboard_event
    (with_inputs (with_keyboard (update_from_glfw_key GLFW_KEY_F GLFW_PRESS))
       (scene shift_held))))) = true.
Proof.
  apply (display_mode_changes_only_on_shift_F (methods := ref_scene)
           GLFW_KEY_F 41 GLFW_PRESS 1 shift_held).
  - intros sc. reflexivity.
  - vm_compute. discriminate.
Defined.

Lemma second_key_down_toggles_back_witness :
  let p1 := final_state
              (keyboard_callback GLFW_KEY_F 41 GLFW_PRESS 1 shift_held) in
  let p2 := final_state (keyboard_callback GLFW_KEY_F 41 GLFW_PRESS 1 p1) in
  is_full_screen (window (scene p2))
  = is_full_screen (window (scene shift_held))
  /\ is_full_screen (window (scene p1))
     <> is_full_screen (window (scene shift_held)).
Proof.
  apply (second_key_down_toggles_back (methods := ref_scene)
           shift_held 41 1 41 1).
  - intros action kb. reflexivity.
  - intros sc. reflexivity.
  - intros sc. reflexivity.
  - intros win _. reflexivity.
  - intros win _. reflexivity.
  - reflexivity.
Defined.

Lemma segment_follows_object_witness :
  exists l' p',
    iteration (gsl := backward_euler_solver)
      (mk_frame (slit 0.016) None false
         [Key GLFW_KEY_V 47 GLFW_PRESS 1; MouseClick 0 GLFW_PRESS 0])
      start process0
    = Ret l' p'
    /\ line (scene p')
       = Some (mk_vec3 (slit 0) (slit 0) (slit 2), p2_translation (scene p'))
    /\ p2_translation (scene p')
       = vec3_add (p2_translation (scene process0)) (displacement_of (y l')).
Proof.
  apply (segment_follows_object (gsl := backward_euler_solver)
           (mk_frame (slit 0.016) None false
              [Key GLFW_KEY_V 47 GLFW_PRESS 1; MouseClick 0 GLFW_PRESS 0])
           start process0);
    intros sc; split; reflexivity.
Defined.

Lemma integration_depends_on_pass_count_only_witness :
  exists l' q q2,
    animation_loop (gsl := backward_euler_solver) two_frames start process0
    = Ret l' q
    /\ animation_loop (gsl := backward_euler_solver)
         (repeat quiet_frame 2) start lost
       = Ret l' q2
    /\ l' = Nat.iter (length two_frames)
              (next_locals (gsl := backward_euler_solver)) start
    /\ ti l' = ti start + Z.of_nat (length two_frames)
    /\ -2147483648 <= ti l' <= 2147483647.
Proof.
  apply (integration_depends_on_pass_count_only (gsl := backward_euler_solver)
           two_frames (repeat quiet_frame 2) start process0 lost).
  - reflexivity.
  - cbn. lia.
  - cbn. lia.
Defined.

Lemma graceful_shutdown_order_witness :
  exists p' earlier_calls earlier_text,
    main (gsl := backward_euler_solver)
      (mk_world "softbody" (fun _ => true) two_frames) process0
    = Ret 0 p'
    /\ calls p'
       = (earlier_calls ++
          ["cgp::imgui_cleanup"; "glfwDestroyWindow"; "glfwTerminate";
           "gsl_odeiv2_driver_free"])%list
    /\ cout p'
       = (earlier_text
          ++ [(endl ++ "Animation loop stopped" ++ endl)%string])%list.
Proof.
  apply (graceful_shutdown_order (gsl := backward_euler_solver)
           (mk_world "softbody" (fun _ => true) two_frames) process0).
  reflexivity.
Defined.

End MoreRuns.
